(** * EventCommand: the per-environment timed event flag

    A shallow embedding of
    [lab/flamingo/tasks/manager_based/locomotion/position/mdp/event_command.py]
    (class [EventCommand]) and the properties of its three operations:
    construction, [_resample_command] and [_update_command].

    Tensors are lists; a float32 tensor holds IEEE-754 binary32 values,
    modelled with the Standard Library's [spec_float] at precision 24 and
    maximal exponent 128.  An [IndexError] raised by tensor indexing is an
    explicit outcome, returned together with the object as it was when the
    exception left the method. *)

From Stdlib Require Import ZArith Bool Lia.
From Stdlib Require Import Floats.SpecFloat.
From stdpp Require Import base tactics option list.

(** ** binary32 arithmetic *)

Module F32.

Local Open Scope Z_scope.

Definition prec : Z := 24.
Definition emax : Z := 128.

Definition f32 : Type := spec_float.

(** [+0.0], [1.0], [2.0] and [4.0] as binary32 values. *)
Definition zero : f32 := S754_zero false.
Definition one : f32 := S754_finite false 8388608 (-23).
Definition two : f32 := S754_finite false 8388608 (-22).
Definition four : f32 := S754_finite false 8388608 (-21).

Definition add : f32 -> f32 -> f32 := SFadd prec emax.
Definition mul : f32 -> f32 -> f32 := SFmul prec emax.

(** IEEE comparisons: both are [false] as soon as an operand is NaN. *)
Definition eqb : f32 -> f32 -> bool := SFeqb.
Definition leb : f32 -> f32 -> bool := SFleb.

(** [x >= y] is [y <= x]. *)
Definition geb (x y : f32) : bool := leb y x.

(** Conversion of an integer tensor entry (round to nearest even). *)
Definition of_Z (z : Z) : f32 := binary_normalize prec emax z 0 false.

(** [Tensor.float()] on a boolean entry. *)
Definition of_bool (b : bool) : f32 := if b then one else zero.

End F32.

Abbreviation f32 := F32.f32.

(** ** The tensor operations the class uses *)

Module Torch.

Local Open Scope Z_scope.

(** Indexing a dimension of size [n] with an integer [i]: indices in
    [[0, n)] address their row, indices in [[-n, 0)] count from the end,
    every other index raises [IndexError] (here [None]). *)
Definition norm_index (n : nat) (i : Z) : option nat :=
  if (0 <=? i) && (i <? Z.of_nat n) then Some (Z.to_nat i)
  else if (- Z.of_nat n <=? i) && (i <? 0) then Some (Z.to_nat (i + Z.of_nat n))
  else None.

(** [t[ids]] as a value: the gathered rows. *)
Definition index_select {A} (t : list A) (ids : list Z) : option (list A) :=
  mapM (fun i => norm_index (length t) i ≫= (t !!.)) ids.

(** The writes [t[k] = v] of a batch [kvs], in order. *)
Definition put_all {A B} (set : A -> B -> A) (t : list A) (kvs : list (nat * B)) : list A :=
  foldl (fun acc kv => alter (fun row => set row kv.2) kv.1 acc) t kvs.

(** [t[ids] = vals] (with [set row v] the row after the assignment, which
    lets the same operation write one column of a row): every index is
    checked before anything is written; the writes then happen in order. *)
Definition index_put_with {A B} (set : A -> B -> A)
    (t : list A) (ids : list Z) (vals : list B) : option (list A) :=
  ks ← mapM (norm_index (length t)) ids;
  Some (put_all set t (zip ks vals)).

(** [torch.where(cond, a, b)] on tensors of one shape. *)
Definition where_ {A} (cond : list bool) (a b : list A) : list A :=
  zip_with (fun c xy => if c : bool then xy.1 else xy.2) cond (zip a b).

(** [torch.where(cond, a, y)] with a scalar [y]. *)
Definition where_scalar {A} (cond : list bool) (a : list A) (y : A) : list A :=
  zip_with (fun (c : bool) x => if c then x else y) cond a.

(** [t.nonzero(as_tuple=False).flatten()] on a 1-D boolean tensor: the
    positions that hold [True], in increasing order. *)
Fixpoint nonzero_from (k : Z) (t : list bool) : list Z :=
  match t with
  | [] => []
  | b :: t' => (if b then [k] else []) ++ nonzero_from (k + 1) t'
  end.

Definition nonzero (t : list bool) : list Z := nonzero_from 0 t.

End Torch.

(** ** The class *)

(** [EventCommandCfg]: the one field the logic reads.  A Python float
    that meets a float32 tensor in an operation is converted to float32
    first, so the scalars are kept as binary32 values. *)
Record EventCommandCfg := {
  cfg_event_during_time : f32
}.

(** The default [event_during_time: float = 1.0]. *)
Definition default_cfg : EventCommandCfg :=
  {| cfg_event_during_time := F32.one |}.

(** What the methods read from the environment [self.env]. *)
Record Env := {
  episode_length_buf : list Z;
  physics_dt : f32;
  step_dt : f32;
  reset_buf : list bool
}.

(** The mutable attributes of an [EventCommand] object.  [event_command]
    is the [(num_envs, 2)] tensor: a row is (column 0, column 1). *)
Record EventCommand := {
  time_elapsed : list f32;
  event_command : list (f32 * f32);
  event_during_time : f32
}.

Inductive outcome := Returned | IndexError.

(** [__init__] *)
Definition __init__ (cfg : EventCommandCfg) (num_envs : nat) : EventCommand :=
  {| time_elapsed := replicate num_envs F32.zero;
     event_command := replicate num_envs (F32.zero, F32.zero);
     event_during_time := cfg_event_during_time cfg |}.

(** The [command] property. *)
Definition command (self : EventCommand) : list (f32 * f32) :=
  event_command self.

Definition set_col0 (row : f32 * f32) (v : f32) : f32 * f32 := (v, row.2).
Definition set_col1 (row : f32 * f32) (v : f32) : f32 * f32 := (row.1, v).
Definition set_all {A} (_ v : A) : A := v.

(** [self.env.episode_length_buf * self.env.physics_dt * 4] *)
Definition current_time (env : Env) : list f32 :=
  fmap (fun n => F32.mul (F32.mul (F32.of_Z n) (physics_dt env)) F32.four)
      (episode_length_buf env).

(** [_resample_command(env_ids)].  Line 84 reads [current_time[env_ids]]
    and [self.event_command[env_ids, 0]] before it writes column 0; line 90
    then writes the timer. *)
Definition _resample_command (env : Env) (env_ids : list Z) (self : EventCommand)
    : outcome * EventCommand :=
  match Torch.index_select (current_time env) env_ids with
  | None => (IndexError, self)
  | Some ct =>
    match Torch.index_select (fmap fst (event_command self)) env_ids with
    | None => (IndexError, self)
    | Some col0 =>
      let cond := fmap (fun t => F32.geb t F32.two) ct in
      let ones_like := fmap (fun _ => F32.one) col0 in
      let zeros_like := fmap (fun _ => F32.zero) col0 in
      let vals := Torch.where_ cond ones_like zeros_like in
      match Torch.index_put_with set_col0 (event_command self) env_ids vals with
      | None => (IndexError, self)
      | Some ec =>
        let self1 := {| time_elapsed := time_elapsed self;
                        event_command := ec;
                        event_during_time := event_during_time self |} in
        let zeros := replicate (length env_ids) F32.zero in
        match Torch.index_put_with set_all (time_elapsed self1) env_ids zeros with
        | None => (IndexError, self1)
        | Some te =>
          (Returned, {| time_elapsed := te;
                        event_command := ec;
                        event_during_time := event_during_time self |})
        end
      end
    end
  end.

(** Lines 105-109 of [_update_command]: accumulate, deactivate by duration,
    copy the timer into column 1. *)
Definition accumulate_deactivate (env : Env) (self : EventCommand) : EventCommand :=
  let active := fmap (fun row => F32.eqb row.1 F32.one) (event_command self) in
  let te :=
    Torch.where_scalar active
      (fmap (fun t => F32.add t (step_dt env)) (time_elapsed self)) F32.zero in
  let within := fmap (fun t => F32.leb t (event_during_time self)) te in
  let flag := fmap F32.of_bool (zip_with andb active within) in
  let ec0 := zip_with set_col0 (event_command self) flag in
  let ec1 := zip_with set_col1 ec0 te in
  {| time_elapsed := te;
     event_command := ec1;
     event_during_time := event_during_time self |}.

(** Lines 111-114 of [_update_command]: the rows of the environments that
    were reset are zeroed, timer first. *)
Definition reset_override (env : Env) (self : EventCommand) : outcome * EventCommand :=
  let reset_env_ids := Torch.nonzero (reset_buf env) in
  if bool_decide (0 < length reset_env_ids) then
    let zeros := replicate (length reset_env_ids) F32.zero in
    match Torch.index_put_with set_all (time_elapsed self) reset_env_ids zeros with
    | None => (IndexError, self)
    | Some te =>
      let self1 := {| time_elapsed := te;
                      event_command := event_command self;
                      event_during_time := event_during_time self |} in
      let zero_rows := replicate (length reset_env_ids) (F32.zero, F32.zero) in
      match Torch.index_put_with set_all (event_command self1) reset_env_ids zero_rows with
      | None => (IndexError, self1)
      | Some ec =>
        (Returned, {| time_elapsed := te;
                      event_command := ec;
                      event_during_time := event_during_time self |})
      end
    end
  else (Returned, self).

(** [_update_command()] *)
Definition _update_command (env : Env) (self : EventCommand) : outcome * EventCommand :=
  reset_override env (accumulate_deactivate env self).

(** Every tensor of the object and of the environment has [n] rows. *)
Definition wf (n : nat) (env : Env) (self : EventCommand) : Prop :=
  length (time_elapsed self) = n /\
  length (event_command self) = n /\
  length (episode_length_buf env) = n /\
  length (reset_buf env) = n.

(** ** Auxiliary definitions for the statements *)

(** The value the last write to row [j] carries, if row [j] is written. *)
Fixpoint last_write {B} (j : nat) (kvs : list (nat * B)) : option B :=
  match kvs with
  | [] => None
  | kv :: kvs' =>
    match last_write j kvs' with
    | Some w => Some w
    | None => if decide (kv.1 = j) then Some kv.2 else None
    end
  end.

(** What one call of [_update_command] makes of one environment: its
    timer [te], its row [row] of [event_command] and its entry [rst] of
    [reset_buf] give the new timer and the new row. *)
Definition row_accumulate (dt dur te : f32) (row : f32 * f32) : f32 * (f32 * f32) :=
  let te1 := if F32.eqb row.1 F32.one then F32.add te dt else F32.zero in
  (te1, (F32.of_bool (F32.eqb row.1 F32.one && F32.leb te1 dur), te1)).

Definition row_update (dt dur : f32) (rst : bool) (te : f32) (row : f32 * f32)
    : f32 * (f32 * f32) :=
  if rst then (F32.zero, (F32.zero, F32.zero)) else row_accumulate dt dur te row.

(** The states an object of [n] environments goes through: construction,
    then any sequence of resample and update calls, the environment's
    buffers having [n] entries each. *)
Inductive reachable (cfg : EventCommandCfg) (n : nat) : EventCommand -> Prop :=
| reach_init : reachable cfg n (__init__ cfg n)
| reach_resample env env_ids self :
    length (episode_length_buf env) = n -> length (reset_buf env) = n ->
    reachable cfg n self ->
    reachable cfg n (_resample_command env env_ids self).2
| reach_update env self :
    length (episode_length_buf env) = n -> length (reset_buf env) = n ->
    reachable cfg n self ->
    reachable cfg n (_update_command env self).2.

(** The flag [_resample_command] writes for environment [j]:
    [torch.where(current_time[j] >= 2.0, 1.0, 0.0)]. *)
Definition resample_flag (env : Env) (j : nat) : f32 :=
  match current_time env !! j with
  | Some t => if F32.geb t F32.two then F32.one else F32.zero
  | None => F32.zero
  end.

(** A stream of update calls, one per entry of [envs]. *)
Definition updates (envs : list Env) (self : EventCommand) : EventCommand :=
  foldl (fun s env => (_update_command env s).2) self envs.

(** The active entry is the float 0.0 or the float 1.0. *)
Definition flag_is_bool (row : f32 * f32) : Prop :=
  row.1 = F32.zero \/ row.1 = F32.one.

(** A row at rest: flag 0.0 comes with elapsed 0.0. *)
Definition inactive_is_zero (row : f32 * f32) : Prop :=
  row.1 = F32.zero -> row.2 = F32.zero.

(** The row an index addresses in a dimension of size [n], when the
    index is in [[-n, n)]. *)
Definition row_of (n : nat) (i : Z) : nat :=
  Z.to_nat (if (0 <=? i)%Z then i else (i + Z.of_nat n)%Z).

(** The two tensors of the object, and the two buffers of the
    environment, have [n] rows. *)
Definition shaped (n : nat) (self : EventCommand) : Prop :=
  length (time_elapsed self) = n /\ length (event_command self) = n.

Definition env_shaped (n : nat) (env : Env) : Prop :=
  length (episode_length_buf env) = n /\ length (reset_buf env) = n.

(** Two update calls that look the same from environment [i] of the one
    and environment [j] of the other: same [step_dt], same reset entry. *)
Definition same_step (i j : nat) (env1 env2 : Env) : Prop :=
  step_dt env1 = step_dt env2 /\ reset_buf env1 !! i = reset_buf env2 !! j.

(** Row [i] of one object and row [j] of another hold the same values. *)
Definition same_row (i j : nat) (s1 s2 : EventCommand) : Prop :=
  time_elapsed s1 !! i = time_elapsed s2 !! j /\
  command s1 !! i = command s2 !! j.

(** ** Concrete values for the scenarios *)

(** The binary32 values nearest to 0.3, 0.005, 0.1 and 0.5, and the
    binary32 sums 0.3 + 0.3 + 0.3 (about 0.9) and 0.3 + 0.3 + 0.3 + 0.3
    (about 1.2). *)
Definition f32_0_3 : f32 := S754_finite false 10066330 (-25).
Definition f32_0_005 : f32 := S754_finite false 10737418 (-31).
Definition f32_0_1 : f32 := S754_finite false 13421773 (-27).
Definition f32_0_5 : f32 := S754_finite false 8388608 (-24).
Definition f32_0_9 : f32 := S754_finite false 15099495 (-24).
Definition f32_1_2 : f32 := S754_finite false 10066330 (-23).

(** One environment, [physics_dt = 0.005]: after 500 steps the episode
    time is 10 s (past the 2 s threshold), after 0 steps it is 0 s. *)
Definition env1 (len : Z) (dt : f32) (rst : bool) : Env :=
  {| episode_length_buf := [len]; physics_dt := f32_0_005;
     step_dt := dt; reset_buf := [rst] |}.

Definition warm : Env := env1 500 f32_0_3 false.
Definition cold : Env := env1 0 f32_0_3 false.

(** Scenario A: construction, then a resample of environment 0 past the
    threshold. *)
Definition started : EventCommand :=
  (_resample_command warm [0%Z] (__init__ default_cfg 1)).2.

(** ... then [k] update calls with [dt = 0.3] and no reset. *)
Definition after_updates (k : nat) : EventCommand :=
  updates (replicate k warm) started.

(** One update, then a resample before the threshold, and one past it. *)
Definition resampled_cold : EventCommand :=
  (_resample_command cold [0%Z] (after_updates 1)).2.

Definition resampled_warm : EventCommand :=
  (_resample_command warm [0%Z] (after_updates 1)).2.

(** Scenario C: two environments, both active, environment 0 reset in
    this step, [dt = 0.1]. *)
Definition env_C : Env :=
  {| episode_length_buf := [500%Z; 500%Z]; physics_dt := f32_0_005;
     step_dt := f32_0_1; reset_buf := [true; false] |}.

Definition state_C : EventCommand :=
  {| time_elapsed := [f32_0_5; f32_0_3];
     event_command := [(F32.one, f32_0_5); (F32.one, f32_0_3)];
     event_during_time := F32.one |}.

(** ** The reference configuration *)

(** [LocomotionPositionRoughEnvCfg.__post_init__] sets [sim.dt = 0.005] and
    [decimation = 4]; [f32_0_02] is the binary32 value nearest to the step
    of 0.02 s.  An environment of that configuration whose only episode
    has run [n] steps: *)
Definition f32_0_02 : f32 := S754_finite false 10737418 (-29).

Definition reference_env (n : Z) : Env :=
  {| episode_length_buf := [n]; physics_dt := f32_0_005;
     step_dt := f32_0_02; reset_buf := [false] |}.

(** The flag a resample writes after [n] steps is 1.0 from step 100 on. *)
Definition warmup_check (n : Z) : bool :=
  F32.eqb (resample_flag (reference_env n) 0)
          (if (100 <=? n)%Z then F32.one else F32.zero).

Definition warmup_check_upto (bound : Z) : bool :=
  forallb warmup_check (seqZ 0 (bound + 1)).

(** ** Debug visualisation of the command *)

Definition vec3 : Type := f32 * f32 * f32.

(** The two marker configurations of the module, the defaults of
    [command_active_visualizer_cfg] and [command_inactive_visualizer_cfg]. *)
Inductive VisualizationMarkersCfg := GREEN_CUBOID_MARKER_CFG | RED_CUBOID_MARKER_CFG.

Record VisualizerCfgs := {
  command_active_visualizer_cfg : VisualizationMarkersCfg;
  command_inactive_visualizer_cfg : VisualizationMarkersCfg
}.

Definition default_visualizer_cfgs : VisualizerCfgs :=
  {| command_active_visualizer_cfg := GREEN_CUBOID_MARKER_CFG;
     command_inactive_visualizer_cfg := RED_CUBOID_MARKER_CFG |}.

(** What the class uses of a [VisualizationMarkers] object: its
    configuration, its visibility and the translations of its last
    [visualize] call. *)
Record VisualizationMarkers := {
  marker_cfg : VisualizationMarkersCfg;
  visible : bool;
  translations : list vec3
}.

Definition new_markers (cfg : VisualizationMarkersCfg) : VisualizationMarkers :=
  {| marker_cfg := cfg; visible := true; translations := [] |}.

Definition set_visibility (b : bool) (m : VisualizationMarkers) : VisualizationMarkers :=
  {| marker_cfg := marker_cfg m; visible := b; translations := translations m |}.

Definition visualize (ps : list vec3) (m : VisualizationMarkers) : VisualizationMarkers :=
  {| marker_cfg := marker_cfg m; visible := visible m; translations := ps |}.

(** The two visualizer attributes of the object; [None] is an attribute
    that is not set ([hasattr] is false). *)
Record DebugVis := {
  command_active_visualizer : option VisualizationMarkers;
  command_inactive_visualizer : option VisualizationMarkers
}.

Definition no_visualizers : DebugVis :=
  {| command_active_visualizer := None; command_inactive_visualizer := None |}.

(** [_set_debug_vis_impl(debug_vis)] *)
Definition _set_debug_vis_impl (cfgs : VisualizerCfgs) (debug_vis : bool) (v : DebugVis)
    : DebugVis :=
  if debug_vis then
    let v1 :=
      match command_active_visualizer v, command_inactive_visualizer v with
      | Some _, Some _ => v
      | _, _ =>
        {| command_active_visualizer :=
             Some (new_markers (command_active_visualizer_cfg cfgs));
           command_inactive_visualizer :=
             Some (new_markers (command_inactive_visualizer_cfg cfgs)) |}
      end in
    {| command_active_visualizer := set_visibility true <$> command_active_visualizer v1;
       command_inactive_visualizer := set_visibility true <$> command_inactive_visualizer v1 |}
  else
    {| command_active_visualizer := set_visibility false <$> command_active_visualizer v;
       command_inactive_visualizer := set_visibility false <$> command_inactive_visualizer v |}.

(** What [_debug_vis_callback] reads of [self.robot]. *)
Record Robot := {
  is_initialized : bool;
  root_pos_w : list vec3
}.

Inductive vis_outcome := VisReturned | VisAttributeError | VisIndexError.

(** The binary32 value nearest to 0.65. *)
Definition f32_0_65 : f32 := S754_finite false 10905190 (-24).

(** [base_pos_w = root_pos_w.clone(); base_pos_w[:, 2] += 0.65] *)
Definition raised (p : vec3) : vec3 := (p.1.1, p.1.2, F32.add p.2 f32_0_65).

(** [(self.event_command[:, 0] == 1.0).nonzero(as_tuple=True)[0]] and
    [(self.event_command[:, 0] == 0.0).nonzero(as_tuple=True)[0]] *)
Definition active_indices (self : EventCommand) : list Z :=
  Torch.nonzero ((fun row => F32.eqb row.1 F32.one) <$> event_command self).

Definition inactive_indices (self : EventCommand) : list Z :=
  Torch.nonzero ((fun row => F32.eqb row.1 F32.zero) <$> event_command self).

(** [_debug_vis_callback(event)] *)
Definition _debug_vis_callback (robot : Robot) (self : EventCommand) (v : DebugVis)
    : vis_outcome * DebugVis :=
  if negb (is_initialized robot) then (VisReturned, v)
  else
    let base_pos_w := raised <$> root_pos_w robot in
    let active := active_indices self in
    let inactive := inactive_indices self in
    let shown_active :=
      if bool_decide (0 < length active) then
        match command_active_visualizer v with
        | None => (VisAttributeError, v)
        | Some m =>
          match Torch.index_select base_pos_w active with
          | None => (VisIndexError, v)
          | Some ps =>
            (VisReturned,
             {| command_active_visualizer := Some (visualize ps m);
                command_inactive_visualizer := command_inactive_visualizer v |})
          end
        end
      else (VisReturned, v) in
    match shown_active with
    | (VisReturned, v1) =>
      if bool_decide (0 < length inactive) then
        match command_inactive_visualizer v1 with
        | None => (VisAttributeError, v1)
        | Some m =>
          match Torch.index_select base_pos_w inactive with
          | None => (VisIndexError, v1)
          | Some ps =>
            (VisReturned,
             {| command_active_visualizer := command_active_visualizer v1;
                command_inactive_visualizer := Some (visualize ps m) |})
          end
        end
      else (VisReturned, v1)
    | raised_exception => raised_exception
    end.

(** The visualizer attributes an object goes through: none at first, then
    any sequence of [_set_debug_vis_impl] and [_debug_vis_callback] calls. *)
Inductive vis_reachable (cfgs : VisualizerCfgs) : DebugVis -> Prop :=
| vis_fresh : vis_reachable cfgs no_visualizers
| vis_set debug_vis v :
    vis_reachable cfgs v -> vis_reachable cfgs (_set_debug_vis_impl cfgs debug_vis v)
| vis_callback robot self v :
    vis_reachable cfgs v -> vis_reachable cfgs (_debug_vis_callback robot self v).2.

(** The two visualizers exist together, carry their own configuration and
    are shown or hidden together. *)
Definition visualizers_paired (cfgs : VisualizerCfgs) (v : DebugVis) : Prop :=
  v = no_visualizers \/
  exists ma mi,
    command_active_visualizer v = Some ma /\
    command_inactive_visualizer v = Some mi /\
    marker_cfg ma = command_active_visualizer_cfg cfgs /\
    marker_cfg mi = command_inactive_visualizer_cfg cfgs /\
    visible ma = visible mi.

(** A robot with three environments, and the visualizers once enabled. *)
Definition robot3 : Robot :=
  {| is_initialized := true;
     root_pos_w := [(F32.zero, F32.zero, F32.zero); (F32.one, F32.zero, F32.zero);
                    (F32.two, F32.zero, F32.zero)] |}.

Definition state3 : EventCommand :=
  {| time_elapsed := [F32.zero; f32_0_3; F32.zero];
     event_command := [(F32.zero, F32.zero); (F32.one, f32_0_3); (F32.zero, F32.zero)];
     event_during_time := F32.one |}.

Definition enabled_vis : DebugVis :=
  _set_debug_vis_impl default_visualizer_cfgs true no_visualizers.

(** ** Observation terms ([mdp/observations.py]) *)

(** An attribute of a Python object as the observation terms see it: not
    set, set to [None], or holding a value. *)
Inductive attr (A : Type) := Missing | IsNone | Has (a : A).
Arguments Missing {A}.
Arguments IsNone {A}.
Arguments Has {A} a.

(** What [current_reward] reads of the environment. *)
Record RewardEnv := {
  num_envs : nat;
  reward_manager : attr unit;
  reward_buf : attr (list f32)
}.

(** [current_reward(env)]: zeros of shape [(num_envs, 1)] when there is no
    reward manager, and when reading [env.reward_buf.unsqueeze(-1)] raises
    [AttributeError]; [reward_buf.unsqueeze(-1)] otherwise. *)
Definition current_reward (env : RewardEnv) : list (list f32) :=
  let zeros := replicate (num_envs env) [F32.zero] in
  match reward_manager env with
  | Missing | IsNone => zeros
  | Has _ =>
    match reward_buf env with
    | Has buf => (fun r => [r]) <$> buf
    | Missing | IsNone => zeros
    end
  end.

(** [contact_sensor.data.net_forces_w], of shape [(N, B, 3)]: [B] and the
    [N] rows of [B] forces. *)
Record ContactSensorData := {
  num_bodies : nat;
  net_forces_w : list (list vec3)
}.

Definition contact_ok (d : ContactSensorData) : Prop :=
  Forall (fun row => length row = num_bodies d) (net_forces_w d).

(** [net_forces_w[:, id]] *)
Definition select_body (d : ContactSensorData) (id : Z) : option (list vec3) :=
  k ← Torch.norm_index (num_bodies d) id;
  mapM (fun row : list vec3 => row !! k) (net_forces_w d).

Definition vec3_list (p : vec3) : list f32 := [p.1.1; p.1.2; p.2].

(** [measure_contact_forces(env, sensor_cfg)], with [body_ids] the list
    [sensor_cfg.body_ids]; [None] is an [IndexError], of the list
    ([body_ids[0]], [body_ids[1]]) or of the tensor. *)
Definition measure_contact_forces (d : ContactSensorData) (body_ids : list Z)
    : option (list (list f32)) :=
  l ← body_ids !! 0;
  left_contact_forces ← select_body d l;
  r ← body_ids !! 1;
  right_contact_forces ← select_body d r;
  Some (zip_with (fun a b => vec3_list a ++ vec3_list b)
          left_contact_forces right_contact_forces).

(** A 2-D float tensor: its number of columns and its rows. *)
Record Tensor2 := {
  ncols : nat;
  rows : list (list f32)
}.

Definition tensor_ok (t : Tensor2) : Prop :=
  Forall (fun row => length row = ncols t) (rows t).

(** What [command_manager.get_command] returns for the event command. *)
Definition command_tensor (self : EventCommand) : Tensor2 :=
  {| ncols := 2; rows := (fun row => [row.1; row.2]) <$> command self |}.

(** A 1-D tensor broadcast along the last dimension of size [k], for an
    in-place operation: it has [k] entries, or one entry that is repeated;
    any other size is a [RuntimeError] ([None]). *)
Definition broadcast_to (k : nat) (t : list f32) : option (list f32) :=
  if bool_decide (length t = k) then Some t
  else match t with
       | [s] => Some (replicate k s)
       | _ => None
       end.

(** [generated_scaled_commands(env, command_name, scale)] on the command
    tensor [cmd]: [scaled_command[:, :3] *= torch.tensor(scale)] on a
    clone. *)
Definition generated_scaled_commands (cmd : Tensor2) (scale : list f32)
    : option Tensor2 :=
  let k := min 3 (ncols cmd) in
  factors ← broadcast_to k scale;
  Some {| ncols := ncols cmd;
          rows := (fun row => zip_with F32.mul (take k row) factors ++ drop k row)
                    <$> rows cmd |}.

(** [base_lin_vel_x_link], [base_lin_vel_y_link] and [base_lin_vel_z_link]
    on [asset.data.root_link_lin_vel_b], of shape [(N, 3)]: columns 0, 1
    and, for the last one too, 1. *)
Definition base_lin_vel_x_link (vel : list vec3) : list (list f32) :=
  (fun p => [p.1.1]) <$> vel.

Definition base_lin_vel_y_link (vel : list vec3) : list (list f32) :=
  (fun p => [p.1.2]) <$> vel.

Definition base_lin_vel_z_link (vel : list vec3) : list (list f32) :=
  (fun p => [p.1.2]) <$> vel.

(** Two wheels and a base, one environment. *)
Definition contact3 : ContactSensorData :=
  {| num_bodies := 3;
     net_forces_w := [[(F32.zero, F32.zero, F32.one); (F32.zero, F32.zero, F32.two);
                       (F32.one, F32.one, F32.one)]] |}.

(** ** Facts about the tensor operations *)

Section torch_facts.

Import Torch.

Lemma norm_index_lt n i k : norm_index n i = Some k → k < n.
Proof.
  unfold norm_index. intros H.
  repeat case_match; simplify_eq; lia.
Qed.

Lemma norm_index_nonneg n i :
  (0 ≤ i < Z.of_nat n)%Z → norm_index n i = Some (Z.to_nat i).
Proof.
  unfold norm_index. intros H.
  repeat case_match; try reflexivity; lia.
Qed.

Lemma norm_index_negative n i :
  (- Z.of_nat n ≤ i < 0)%Z → norm_index n i = Some (Z.to_nat (i + Z.of_nat n)).
Proof.
  unfold norm_index. intros H.
  repeat case_match; try reflexivity; lia.
Qed.

Lemma norm_index_out n i :
  (Z.of_nat n ≤ i ∨ i < - Z.of_nat n)%Z → norm_index n i = None.
Proof.
  unfold norm_index. intros H.
  repeat case_match; try reflexivity; lia.
Qed.

Lemma mapM_norm_index_out n ids i :
  i ∈ ids → (Z.of_nat n ≤ i ∨ i < - Z.of_nat n)%Z →
  mapM (norm_index n) ids = None.
Proof.
  intros Hin Hout.
  destruct (mapM (norm_index n) ids) as [ks|] eqn:E; [|done].
  assert (is_Some (mapM (norm_index n) ids)) as Hs by (rewrite E; eauto).
  apply mapM_is_Some_1 in Hs.
  rewrite Forall_forall in Hs. specialize (Hs i Hin).
  simpl in Hs. rewrite (norm_index_out n i Hout) in Hs.
  by destruct Hs.
Qed.

Lemma mapM_norm_index_nonneg n ids :
  Forall (λ i, (0 ≤ i < Z.of_nat n)%Z) ids →
  mapM (norm_index n) ids = Some (Z.to_nat <$> ids).
Proof.
  intros H. apply mapM_Some_2.
  induction H as [|i ids Hi _ IH]; constructor; auto using norm_index_nonneg.
Qed.

Lemma length_put_all {A B} (set : A → B → A) kvs t :
  length (put_all set t kvs) = length t.
Proof.
  revert t. induction kvs as [|kv kvs IH]; intros t; simpl; [done|].
  unfold put_all in *. simpl. by rewrite IH, length_alter.
Qed.

Lemma lookup_put_all {A B} (set : A → B → A) kvs t j :
  (∀ row v w, set (set row v) w = set row w) →
  put_all set t kvs !! j =
    match last_write j kvs with
    | Some v => (λ row, set row v) <$> t !! j
    | None => t !! j
    end.
Proof.
  intros Hset. revert t.
  induction kvs as [|[k v] kvs IH]; intros t; [done|].
  unfold put_all in *. simpl. rewrite IH.
  destruct (last_write j kvs) as [w|].
  - destruct (decide (k = j)) as [->|Hne].
    + rewrite list_lookup_alter_eq.
      destruct (t !! j); simpl; [|done]. by rewrite Hset.
    + by rewrite list_lookup_alter_ne.
  - destruct (decide (k = j)) as [->|Hne].
    + by rewrite list_lookup_alter_eq.
    + by rewrite list_lookup_alter_ne.
Qed.

(** Writing the same batch a second time changes nothing. *)
Lemma put_all_twice {A B} (set : A → B → A) kvs t :
  (∀ row v w, set (set row v) w = set row w) →
  put_all set (put_all set t kvs) kvs = put_all set t kvs.
Proof.
  intros Hset. apply list_eq. intros j.
  rewrite (lookup_put_all set kvs (put_all set t kvs)) by done.
  rewrite lookup_put_all by done.
  destruct (last_write j kvs) as [w|]; [|done].
  destruct (t !! j); simpl; [|done]. by rewrite Hset.
Qed.

Lemma last_write_None {B} j (kvs : list (nat * B)) :
  j ∉ kvs.*1 → last_write j kvs = None.
Proof.
  induction kvs as [|[k v] kvs IH]; [done|].
  simpl. rewrite not_elem_of_cons. intros [Hne Hnin].
  rewrite IH by done. by rewrite decide_False.
Qed.

Lemma last_write_Some {B} (h : nat → B) j (kvs : list (nat * B)) :
  Forall (λ kv, kv.2 = h kv.1) kvs → j ∈ kvs.*1 →
  last_write j kvs = Some (h j).
Proof.
  induction 1 as [|[k v] kvs Hkv _ IH]; simpl.
  - by intros ?%elem_of_nil.
  - intros Hin. destruct (decide (j ∈ kvs.*1)) as [Hj|Hj].
    + by rewrite IH.
    + rewrite last_write_None by done.
      apply elem_of_cons in Hin as [->|?]; [|done].
      simpl in Hkv. by rewrite decide_True, Hkv.
Qed.

Lemma index_put_with_Some {A B} (set : A → B → A) t ids vals ks :
  mapM (norm_index (length t)) ids = Some ks →
  index_put_with set t ids vals = Some (put_all set t (zip ks vals)).
Proof. unfold index_put_with. by intros ->. Qed.

Lemma index_put_with_None {A B} (set : A → B → A) t ids vals :
  mapM (norm_index (length t)) ids = None →
  index_put_with set t ids vals = None.
Proof. unfold index_put_with. by intros ->. Qed.

Lemma length_index_put_with {A B} (set : A → B → A) t ids vals t' :
  index_put_with set t ids vals = Some t' → length t' = length t.
Proof.
  unfold index_put_with. intros H.
  destruct (mapM _ ids); simplify_eq/=. apply length_put_all.
Qed.

End torch_facts.

(** ** binary32 facts *)

Lemma of_bool_cases (b : bool) : F32.of_bool b = F32.zero ∨ F32.of_bool b = F32.one.
Proof. destruct b; [right | left]; reflexivity. Qed.

Lemma of_bool_one (b : bool) : F32.of_bool b = F32.one ↔ b = true.
Proof. destruct b; split; (done || discriminate). Qed.

Lemma of_bool_zero (b : bool) : F32.of_bool b = F32.zero ↔ b = false.
Proof. destruct b; split; (done || discriminate). Qed.

(** ** The environments that were reset *)

Section nonzero_facts.

Import Torch.

Lemma elem_of_nonzero_from k t i :
  i ∈ nonzero_from k t ↔ (k ≤ i)%Z ∧ t !! Z.to_nat (i - k) = Some true.
Proof.
  revert k. induction t as [|b t IH]; intros k; simpl.
  - rewrite elem_of_nil. split; [done|]. by intros [_ ?].
  - rewrite elem_of_app, IH. destruct b; simpl.
    + rewrite list_elem_of_singleton. split.
      * intros [->|[Hk Ht]].
        -- split; [lia|]. by replace (k - k)%Z with 0%Z by lia.
        -- split; [lia|].
           replace (Z.to_nat (i - k)) with (S (Z.to_nat (i - (k + 1)))) by lia.
           done.
      * intros [Hk Ht]. destruct (decide (i = k)) as [->|Hne]; [by left|right].
        split; [lia|].
        replace (Z.to_nat (i - k)) with (S (Z.to_nat (i - (k + 1)))) in Ht by lia.
        done.
    + rewrite elem_of_nil. split.
      * intros [[]|[Hk Ht]]. split; [lia|].
        replace (Z.to_nat (i - k)) with (S (Z.to_nat (i - (k + 1)))) by lia.
        done.
      * intros [Hk Ht]. right.
        destruct (decide (i = k)) as [->|Hne].
        -- replace (k - k)%Z with 0%Z in Ht by lia. done.
        -- split; [lia|].
           replace (Z.to_nat (i - k)) with (S (Z.to_nat (i - (k + 1)))) in Ht by lia.
           done.
Qed.

Lemma elem_of_nonzero t i :
  i ∈ nonzero t ↔ (0 ≤ i)%Z ∧ t !! Z.to_nat i = Some true.
Proof.
  unfold nonzero. rewrite elem_of_nonzero_from.
  by replace (i - 0)%Z with i by lia.
Qed.

Lemma nonzero_in_range t :
  Forall (λ i, (0 ≤ i < Z.of_nat (length t))%Z) (nonzero t).
Proof.
  apply Forall_forall. intros i [Hi Ht]%elem_of_nonzero.
  apply lookup_lt_Some in Ht. lia.
Qed.

Lemma elem_of_nonzero_nat t (j : nat) :
  j ∈ Z.to_nat <$> nonzero t ↔ t !! j = Some true.
Proof.
  rewrite list_elem_of_fmap. split.
  - intros (i & -> & [Hi Ht]%elem_of_nonzero). done.
  - intros Ht. exists (Z.of_nat j). split; [lia|].
    apply elem_of_nonzero. split; [lia|]. by rewrite Nat2Z.id.
Qed.

End nonzero_facts.

(** ** [_update_command], row by row *)

Section update_rows.

Import Torch.

Variable env : Env.
Variable self : EventCommand.

Lemma accumulate_deactivate_lookup i te row :
  time_elapsed self !! i = Some te →
  event_command self !! i = Some row →
  let r := row_accumulate (step_dt env) (event_during_time self) te row in
  time_elapsed (accumulate_deactivate env self) !! i = Some r.1 ∧
  event_command (accumulate_deactivate env self) !! i = Some r.2.
Proof.
  intros Hte Hrow. unfold accumulate_deactivate, where_scalar; simpl.
  repeat (rewrite ?lookup_zip_with, ?list_lookup_fmap, ?Hte, ?Hrow; simpl).
  done.
Qed.

Lemma accumulate_deactivate_length n :
  length (time_elapsed self) = n → length (event_command self) = n →
  length (time_elapsed (accumulate_deactivate env self)) = n ∧
  length (event_command (accumulate_deactivate env self)) = n.
Proof.
  intros Hte Hec. unfold accumulate_deactivate, where_scalar; simpl.
  repeat rewrite ?length_zip_with, ?length_fmap. lia.
Qed.

Lemma accumulate_deactivate_duration :
  event_during_time (accumulate_deactivate env self) = event_during_time self.
Proof. done. Qed.

(** After lines 105-109 the exposed column 1 is the timer, whatever the
    shapes were before. *)
Lemma accumulate_deactivate_sync :
  (command (accumulate_deactivate env self)).*2 =
  time_elapsed (accumulate_deactivate env self).
Proof.
  unfold command, accumulate_deactivate, where_scalar; simpl.
  apply list_eq. intros i.
  repeat (rewrite ?lookup_zip_with, ?list_lookup_fmap; simpl).
  destruct (event_command self !! i) as [row|]; simpl; [|done].
  destruct (time_elapsed self !! i) as [te|]; simpl; done.
Qed.

End update_rows.

Section reset_rows.

Import Torch.

Lemma last_write_replicate {B} (ks : list nat) (v : B) j :
  last_write j (zip ks (replicate (length ks) v)) = if decide (j ∈ ks) then Some v else None.
Proof.
  assert ((zip ks (replicate (length ks) v)).*1 = ks) as Hfst.
  { apply fst_zip. by rewrite length_replicate. }
  destruct (decide (j ∈ ks)) as [Hj|Hj].
  - apply (last_write_Some (λ _, v)); [|by rewrite Hfst].
    apply Forall_forall. intros [k w] Hin. simpl.
    apply elem_of_zip_r in Hin. by apply elem_of_replicate in Hin as [? _].
  - apply last_write_None. by rewrite Hfst.
Qed.

(** [t[ids] = v] with a scalar [v], for indices that are in range. *)
Lemma index_fill_nonneg {A} (t : list A) (ids : list Z) (v : A) :
  Forall (λ i, (0 ≤ i < Z.of_nat (length t))%Z) ids →
  ∃ t', index_put_with set_all t ids (replicate (length ids) v) = Some t' ∧
        length t' = length t ∧
        ∀ j, t' !! j = if decide (j ∈ Z.to_nat <$> ids) then (λ _, v) <$> t !! j else t !! j.
Proof.
  intros Hids. eexists. split; [|split].
  - apply index_put_with_Some. by apply mapM_norm_index_nonneg.
  - apply length_put_all.
  - intros j. rewrite lookup_put_all by done.
    replace (length ids) with (length (Z.to_nat <$> ids)) by apply length_fmap.
    rewrite last_write_replicate.
    destruct (decide _); [|done]. by destruct (t !! j).
Qed.

Lemma reset_override_lookup env self n :
  length (time_elapsed self) = n → length (event_command self) = n →
  length (reset_buf env) = n →
  ∃ self', reset_override env self = (Returned, self') ∧
    length (time_elapsed self') = n ∧ length (event_command self') = n ∧
    event_during_time self' = event_during_time self ∧
    ∀ j, time_elapsed self' !! j =
           (if decide (reset_buf env !! j = Some true)
            then (λ _, F32.zero) <$> time_elapsed self !! j else time_elapsed self !! j) ∧
         event_command self' !! j =
           (if decide (reset_buf env !! j = Some true)
            then (λ _, (F32.zero, F32.zero)) <$> event_command self !! j
            else event_command self !! j).
Proof.
  intros Hte Hec Hrb. unfold reset_override.
  case_bool_decide as Hlen.
  - pose proof (nonzero_in_range (reset_buf env)) as Hr.
    destruct (index_fill_nonneg (time_elapsed self) (nonzero (reset_buf env)) F32.zero)
      as (te' & -> & Hlte & Hte'); [by rewrite Hte, <- Hrb|].
    simpl.
    destruct (index_fill_nonneg (event_command self) (nonzero (reset_buf env))
                (F32.zero, F32.zero))
      as (ec' & -> & Hlec & Hec'); [by rewrite Hec, <- Hrb|].
    eexists. split; [done|]. simpl. repeat split; [congruence..| |].
    + rewrite Hte'. repeat case_decide; try done.
      all: exfalso; rewrite elem_of_nonzero_nat in *; done.
    + rewrite Hec'. repeat case_decide; try done.
      all: exfalso; rewrite elem_of_nonzero_nat in *; done.
  - eexists. split; [done|]. repeat split; try done.
    all: case_decide as Hj; [|done].
    all: exfalso; apply Hlen.
    all: apply elem_of_nonzero_nat, list_elem_of_fmap in Hj as (i & _ & Hi).
    all: destruct (nonzero (reset_buf env)); [by apply elem_of_nil in Hi|simpl; lia].
Qed.

End reset_rows.

(** One call of [_update_command] returns, keeps the shapes, and maps
    every environment by [row_update]. *)
Lemma update_row n env self i te row rst :
  wf n env self →
  time_elapsed self !! i = Some te →
  event_command self !! i = Some row →
  reset_buf env !! i = Some rst →
  ∃ self', _update_command env self = (Returned, self') ∧
    wf n env self' ∧
    event_during_time self' = event_during_time self ∧
    let r := row_update (step_dt env) (event_during_time self) rst te row in
    time_elapsed self' !! i = Some r.1 ∧ command self' !! i = Some r.2.
Proof.
  intros (Hte & Hec & Hlen & Hrb) Hi Hrow Hrst. unfold _update_command.
  destruct (accumulate_deactivate_length env self n Hte Hec) as [Hte1 Hec1].
  destruct (reset_override_lookup env _ n Hte1 Hec1 Hrb)
    as (self' & Hret & Hte' & Hec' & Hdur & Hrows).
  exists self'. split; [done|]. split; [done|]. split; [done|].
  unfold command. destruct (Hrows i) as [-> ->].
  destruct (accumulate_deactivate_lookup env self i te row Hi Hrow) as [-> ->].
  unfold row_update. rewrite Hrst.
  destruct rst; simpl; done.
Qed.

Lemma update_wf n env self :
  wf n env self →
  ∃ self', _update_command env self = (Returned, self') ∧ wf n env self' ∧
           event_during_time self' = event_during_time self.
Proof.
  intros (Hte & Hec & Hlen & Hrb). unfold _update_command.
  destruct (accumulate_deactivate_length env self n Hte Hec) as [Hte1 Hec1].
  destruct (reset_override_lookup env _ n Hte1 Hec1 Hrb)
    as (self' & Hret & Hte' & Hec' & Hdur & Hrows).
  exists self'. done.
Qed.

(** ** [_resample_command], row by row *)

Section resample_rows.

Import Torch.

Lemma index_select_Some {A} (t : list A) ids ks :
  mapM (norm_index (length t)) ids = Some ks →
  ∃ xs, index_select t ids = Some xs ∧ Forall2 (λ k x, t !! k = Some x) ks xs.
Proof.
  intros H%mapM_Some_1. unfold index_select.
  induction H as [|i k ids ks Hik _ (xs & Hxs & Hall)].
  - exists []. split; [done|constructor].
  - destruct (lookup_lt_is_Some_2 t k) as [x Hx]; [by eapply norm_index_lt|].
    exists (x :: xs). split; [|by constructor].
    apply mapM_Some_2. constructor.
    + rewrite Hik. done.
    + by apply mapM_Some_1.
Qed.

Lemma index_select_None {A} (t : list A) ids :
  mapM (norm_index (length t)) ids = None → index_select t ids = None.
Proof.
  intros Hnone. unfold index_select.
  match goal with |- ?m = None => destruct m as [xs|] eqn:E; [|done] end.
  apply mapM_Some_1 in E.
  assert (is_Some (mapM (norm_index (length t)) ids)) as [ks Hks]; [|congruence].
  apply mapM_is_Some_2. clear Hnone.
  induction E as [|i x ids xs Hix _ IH]; [constructor|constructor; [|done]].
  simpl. destruct (norm_index (length t) i); [eauto|done].
Qed.

Lemma index_select_length {A} (t : list A) ids xs :
  index_select t ids = Some xs → length xs = length ids.
Proof. unfold index_select. by intros ->%length_mapM. Qed.

Lemma index_select_resize {A B} (t : list A) (t' : list B) ids xs :
  index_select t ids = Some xs → length t' = length t →
  ∃ xs', index_select t' ids = Some xs' ∧ length xs' = length xs.
Proof.
  intros Hxs Hlen.
  destruct (mapM (norm_index (length t)) ids) as [ks|] eqn:E.
  - rewrite <- Hlen in E.
    destruct (index_select_Some t' ids ks E) as (xs' & Hxs' & _).
    exists xs'. split; [done|].
    by rewrite (index_select_length _ _ _ Hxs), (index_select_length _ _ _ Hxs').
  - rewrite (index_select_None t ids E) in Hxs. done.
Qed.

Lemma index_put_with_twice {A B} (set : A → B → A) t ids vals t' :
  (∀ row v w, set (set row v) w = set row w) →
  index_put_with set t ids vals = Some t' →
  index_put_with set t' ids vals = Some t'.
Proof.
  intros Hset Hput. pose proof (length_index_put_with _ _ _ _ _ Hput) as Hlen.
  unfold index_put_with in *. rewrite Hlen.
  destruct (mapM _ ids) as [ks|]; simplify_eq/=.
  by rewrite put_all_twice.
Qed.

(** [torch.where(cond, ones_like(x), zeros_like(x))] *)
Lemma where_const {A B C} (f : A → bool) (a b : C) (ct : list A) (col : list B) :
  length col = length ct →
  where_ (f <$> ct) ((λ _, a) <$> col) ((λ _, b) <$> col) =
  (λ t, if f t then a else b) <$> ct.
Proof.
  revert col. induction ct as [|t ct IH]; intros [|x col]; simpl; try done.
  intros [= Hlen]. unfold where_ in *. simpl. by rewrite IH.
Qed.

Lemma zip_flag_spec (cur : list f32) ks ct :
  Forall2 (λ k t, cur !! k = Some t) ks ct →
  Forall (λ kv : nat * f32,
            kv.2 = match cur !! kv.1 with
                   | Some t => if F32.geb t F32.two then F32.one else F32.zero
                   | None => F32.zero
                   end)
         (zip ks ((λ t, if F32.geb t F32.two then F32.one else F32.zero) <$> ct)).
Proof.
  induction 1 as [|k t ks ct Hk _ IH]; simpl; constructor; [|done].
  simpl. by rewrite Hk.
Qed.

Lemma resample_rows n env env_ids self ks :
  wf n env self →
  mapM (norm_index n) env_ids = Some ks →
  ∃ self', _resample_command env env_ids self = (Returned, self') ∧
    wf n env self' ∧
    event_during_time self' = event_during_time self ∧
    ∀ j, time_elapsed self' !! j =
           (if decide (j ∈ ks)
            then (λ _, F32.zero) <$> time_elapsed self !! j
            else time_elapsed self !! j) ∧
         command self' !! j =
           (if decide (j ∈ ks)
            then (λ row, (resample_flag env j, row.2)) <$> event_command self !! j
            else event_command self !! j).
Proof.
  intros (Hte & Hec & Hlen & Hrb) Hks. unfold _resample_command.
  assert (length (current_time env) = n) as Hct by (unfold current_time; by rewrite length_fmap).
  destruct (index_select_Some (current_time env) env_ids ks) as (ct & -> & Hall);
    [by rewrite Hct|].
  destruct (index_select_Some (event_command self).*1 env_ids ks) as (col & -> & Hcol);
    [by rewrite length_fmap, Hec|].
  pose proof (Forall2_length _ _ _ Hall) as Hl1.
  pose proof (Forall2_length _ _ _ Hcol) as Hl2.
  pose proof (length_mapM _ _ _ Hks) as Hl3.
  rewrite (where_const (λ t, F32.geb t F32.two)) by congruence.
  rewrite (index_put_with_Some set_col0 _ _ _ ks) by (by rewrite Hec).
  simpl.
  rewrite (index_put_with_Some set_all _ _ _ ks) by (by rewrite Hte).
  eexists. split; [done|]. split; [|split; [done|]].
  - repeat split; simpl; rewrite ?length_put_all; done.
  - intros j. unfold command. simpl. split.
    + rewrite lookup_put_all by done.
      rewrite Hl3, last_write_replicate. by case_decide.
    + rewrite lookup_put_all by done.
      pose proof (zip_flag_spec _ _ _ Hall) as Hspec.
      assert ((zip ks ((λ t, if F32.geb t F32.two then F32.one else F32.zero) <$> ct)).*1 = ks)
        as Hfst by (apply fst_zip; rewrite length_fmap; lia).
      destruct (decide (j ∈ ks)) as [Hj|Hj].
      * rewrite (last_write_Some (resample_flag env) j _ Hspec) by (by rewrite Hfst).
        done.
      * rewrite last_write_None by (by rewrite Hfst). done.
Qed.

Lemma resample_raises n env env_ids self :
  wf n env self →
  mapM (norm_index n) env_ids = None →
  _resample_command env env_ids self = (IndexError, self).
Proof.
  intros (Hte & Hec & Hlen & Hrb) Hks. unfold _resample_command.
  assert (length (current_time env) = n) as Hct by (unfold current_time; by rewrite length_fmap).
  rewrite index_select_None; [done|]. by rewrite Hct.
Qed.

End resample_rows.

Lemma mapM_norm_index_valid n ids :
  Forall (λ i, (- Z.of_nat n ≤ i < Z.of_nat n)%Z) ids →
  mapM (Torch.norm_index n) ids = Some (row_of n <$> ids).
Proof.
  intros H. apply mapM_Some_2.
  induction H as [|i ids Hi _ IH]; constructor; [|done].
  unfold row_of. destruct (Z.leb_spec 0 i).
  - apply norm_index_nonneg. lia.
  - apply norm_index_negative. lia.
Qed.

(** ** Shapes of the reachable states *)

Lemma init_wf cfg n env :
  length (episode_length_buf env) = n → length (reset_buf env) = n →
  wf n env (__init__ cfg n).
Proof. intros ??. repeat split; simpl; by rewrite ?length_replicate. Qed.

Lemma resample_wf n env env_ids self :
  wf n env self → wf n env (_resample_command env env_ids self).2.
Proof.
  intros Hwf. destruct (mapM (Torch.norm_index n) env_ids) as [ks|] eqn:E.
  - destruct (resample_rows n env env_ids self ks Hwf E) as (s' & -> & Hwf' & _).
    done.
  - by rewrite (resample_raises n env env_ids self Hwf E).
Qed.

Lemma reachable_shape cfg n self :
  reachable cfg n self →
  length (time_elapsed self) = n ∧ length (event_command self) = n.
Proof.
  induction 1 as [|env ids self Hl Hr _ [IH1 IH2]|env self Hl Hr _ [IH1 IH2]].
  - simpl. by rewrite !length_replicate.
  - assert (wf n env self) as Hwf by done.
    destruct (resample_wf n env ids self Hwf) as (? & ? & _). done.
  - assert (wf n env self) as Hwf by done.
    destruct (update_wf n env self Hwf) as (s' & -> & (? & ? & _) & _). done.
Qed.

(** ** The claims *)

(** C4 (update step rule).  Lines 105-109 of [_update_command], which
    every call runs first on every environment: an environment whose flag
    equals 1.0 gets the float32 sum [time_elapsed + step_dt] as its timer,
    any other environment gets timer 0.0; the new flag is 1.0 exactly when
    the flag was 1.0 and the timer just computed is [<= event_during_time],
    and 0.0 otherwise; column 1 shows the timer just computed. *)
Theorem update_step_rule env self i te row :
  time_elapsed self !! i = Some te →
  event_command self !! i = Some row →
  let stepped := accumulate_deactivate env self in
  let te' := if F32.eqb row.1 F32.one then F32.add te (step_dt env) else F32.zero in
  _update_command env self = reset_override env stepped ∧
  time_elapsed stepped !! i = Some te' ∧
  ∃ flag', command stepped !! i = Some (flag', te') ∧
    (flag' = F32.one ↔
       F32.eqb row.1 F32.one = true ∧ F32.leb te' (event_during_time self) = true) ∧
    (flag' = F32.zero ↔
       ¬ (F32.eqb row.1 F32.one = true ∧ F32.leb te' (event_during_time self) = true)).
Proof.
  intros Hte Hrow stepped te'. split; [done|].
  destruct (accumulate_deactivate_lookup env self i te row Hte Hrow) as [H1 H2].
  split; [done|]. eexists. split; [exact H2|].
  rewrite of_bool_one, of_bool_zero, andb_true_iff.
  split; [done|]. rewrite <- andb_true_iff. by destruct (_ && _).
Qed.

Lemma update_step_rule_witness :
  time_elapsed (after_updates 3) !! 0 = Some f32_0_9 ∧
  time_elapsed (accumulate_deactivate warm (after_updates 3)) !! 0 = Some f32_1_2.
Proof.
  split; [reflexivity|].
  apply (update_step_rule warm (after_updates 3) 0 f32_0_9 (F32.one, f32_0_9));
    reflexivity.
Defined.

(** C5 (reset override).  In a call of [_update_command] an environment
    whose [reset_buf] entry is set ends with timer 0.0 and row (0.0, 0.0),
    whatever lines 105-109 computed for it; an environment whose entry is
    clear ends with exactly what lines 105-109 computed. *)
Theorem reset_override_wins n env self i rst :
  wf n env self →
  reset_buf env !! i = Some rst →
  ∃ self', _update_command env self = (Returned, self') ∧
    (rst = true →
       time_elapsed self' !! i = Some F32.zero ∧
       command self' !! i = Some (F32.zero, F32.zero)) ∧
    (rst = false →
       time_elapsed self' !! i = time_elapsed (accumulate_deactivate env self) !! i ∧
       command self' !! i = command (accumulate_deactivate env self) !! i).
Proof.
  intros Hwf Hrst.
  assert (i < n) as Hi.
  { destruct Hwf as (_ & _ & _ & <-). by eapply lookup_lt_Some. }
  destruct (lookup_lt_is_Some_2 (time_elapsed self) i) as [te Hte];
    [destruct Hwf as (-> & _); done|].
  destruct (lookup_lt_is_Some_2 (event_command self) i) as [row Hrow];
    [destruct Hwf as (_ & -> & _); done|].
  destruct (update_row n env self i te row rst Hwf Hte Hrow Hrst)
    as (self' & Hret & _ & _ & H1 & H2).
  exists self'. split; [done|].
  destruct (accumulate_deactivate_lookup env self i te row Hte Hrow) as [H3 H4].
  unfold command in *. split; intros ->; simpl in *.
  - done.
  - by rewrite H1, H2, H3, H4.
Qed.

Lemma reset_override_wins_witness :
  ∃ self', _update_command env_C state_C = (Returned, self') ∧
    time_elapsed self' !! 0 = Some F32.zero ∧
    command self' !! 0 = Some (F32.zero, F32.zero).
Proof.
  destruct (reset_override_wins 2 env_C state_C 0 true) as (self' & Hret & Hset & _).
  - repeat split; reflexivity.
  - reflexivity.
  - exists self'. split; [exact Hret|]. apply Hset. reflexivity.
Defined.

(** C2 (scenario A), evaluated on the code.  One environment,
    [event_during_time = 1.0], resampled past the threshold: the state is
    (1.0, 0.0).  Three updates with [dt = 0.3] bring the timer to about 0.9
    with the flag still 1.0.  The fourth brings the timer to about 1.2 and
    clears the flag, but the timer and column 1 keep that value: the row is
    (0.0, 1.2), not (0.0, 0.0).  Only the fifth update zeroes them. *)
Theorem scenario_A_fourth_update :
  command started = [(F32.one, F32.zero)] ∧
  command (after_updates 3) = [(F32.one, f32_0_9)] ∧
  command (after_updates 4) = [(F32.zero, f32_1_2)] ∧
  time_elapsed (after_updates 4) = [f32_1_2] ∧
  F32.leb f32_1_2 F32.one = false ∧
  command (after_updates 4) ≠ [(F32.zero, F32.zero)] ∧
  command (after_updates 5) = [(F32.zero, F32.zero)].
Proof. repeat split; try reflexivity. discriminate. Qed.

(** C1, as stated, fails: construction, a resample past the threshold, one
    update and a resample before the threshold reach a state whose flag is
    0.0 while column 1 still shows the 0.3 written by the update. *)
Lemma inactive_elapsed_zero_counterexample :
  reachable default_cfg 1 resampled_cold ∧
  command resampled_cold = [(F32.zero, f32_0_3)] ∧
  ¬ Forall inactive_is_zero (command resampled_cold).
Proof.
  split; [|split].
  - unfold resampled_cold.
    apply reach_resample; [reflexivity..|].
    change (after_updates 1) with (_update_command warm started).2.
    apply reach_update; [reflexivity..|].
    apply reach_resample; [reflexivity..|]. apply reach_init.
  - reflexivity.
  - intros H. apply Forall_inv in H. unfold inactive_is_zero in H.
    specialize (H eq_refl). discriminate H.
Qed.

(** C1, amended.  After construction every row is (0.0, 0.0).  After a call
    of [_update_command], every environment that was reset, or whose flag
    was not 1.0 before the call, or whose accumulated timer is within
    [event_during_time], has: flag 0.0 implies column 1 is 0.0. *)
Theorem inactive_elapsed_zero_at_rest :
  (∀ cfg n, Forall (λ row, row = (F32.zero, F32.zero)) (command (__init__ cfg n))) ∧
  (∀ n env self i te row rst,
     wf n env self →
     time_elapsed self !! i = Some te →
     event_command self !! i = Some row →
     reset_buf env !! i = Some rst →
     rst = true ∨ F32.eqb row.1 F32.one = false ∨
       F32.leb (F32.add te (step_dt env)) (event_during_time self) = true →
     ∃ self' row', _update_command env self = (Returned, self') ∧
       command self' !! i = Some row' ∧ inactive_is_zero row').
Proof.
  split.
  - intros cfg n. simpl. apply Forall_forall. by intros row ?%elem_of_replicate_inv.
  - intros n env self i te row rst Hwf Hte Hrow Hrst Hcase.
    destruct (update_row n env self i te row rst Hwf Hte Hrow Hrst)
      as (self' & Hret & _ & _ & _ & H2).
    exists self'. eexists. split; [done|]. split; [exact H2|].
    unfold inactive_is_zero, row_update, row_accumulate.
    destruct rst; simpl; [done|].
    destruct Hcase as [?|[Hin|Hle]]; [done| |].
    + by rewrite Hin.
    + destruct (F32.eqb row.1 F32.one); simpl; [|done].
      rewrite Hle. simpl. discriminate.
Qed.

Lemma inactive_elapsed_zero_at_rest_witness :
  ∃ self' row', _update_command warm (after_updates 4) = (Returned, self') ∧
    command self' !! 0 = Some row' ∧ inactive_is_zero row'.
Proof.
  apply (proj2 inactive_elapsed_zero_at_rest 1 warm (after_updates 4) 0
           f32_1_2 (F32.zero, f32_1_2) false).
  - repeat split; reflexivity.
  - reflexivity.
  - reflexivity.
  - reflexivity.
  - right. left. reflexivity.
Defined.

(** C3, as stated, fails: an active environment whose column 1 shows 0.3 is
    resampled past the threshold (episode time 10 s); the pair exposed
    for it is (1.0, 0.3), not (1.0, 0.0). *)
Lemma resample_postcondition_counterexample :
  (∃ t, current_time warm !! 0 = Some t ∧ F32.geb t F32.two = true) ∧
  command (after_updates 1) = [(F32.one, f32_0_3)] ∧
  _resample_command warm [0%Z] (after_updates 1) = (Returned, resampled_warm) ∧
  command resampled_warm !! 0 = Some (F32.one, f32_0_3) ∧
  command resampled_warm !! 0 ≠ Some (F32.one, F32.zero).
Proof.
  split; [|repeat split; try reflexivity; discriminate].
  eexists. split; reflexivity.
Qed.

(** C3, amended.  When every id of [env_ids] addresses a row (it lies in
    [[-n, n)], and in [[0, n)] the row is the id), [_resample_command]
    returns, and for every id of [env_ids] the flag of its row is 1.0 if
    the row's episode time is [>= 2.0] and 0.0 otherwise, the internal
    timer of the row is 0.0, and column 1 of the row is what it was before
    the call. *)
Theorem resample_postcondition n env env_ids self i :
  wf n env self →
  Forall (λ i, (- Z.of_nat n ≤ i < Z.of_nat n)%Z) env_ids →
  i ∈ env_ids →
  ∃ self' t row,
    _resample_command env env_ids self = (Returned, self') ∧
    current_time env !! row_of n i = Some t ∧
    command self !! row_of n i = Some row ∧
    command self' !! row_of n i =
      Some (if F32.geb t F32.two then F32.one else F32.zero, row.2) ∧
    time_elapsed self' !! row_of n i = Some F32.zero ∧
    ((0 ≤ i)%Z → row_of n i = Z.to_nat i).
Proof.
  intros Hwf Hids Hi.
  pose proof (mapM_norm_index_valid n env_ids Hids) as Hks.
  destruct (resample_rows n env env_ids self _ Hwf Hks) as (self' & Hret & _ & _ & Hrows).
  assert (row_of n i < n) as Hlt.
  { rewrite Forall_forall in Hids. specialize (Hids i Hi).
    unfold row_of. destruct (Z.leb_spec 0 i); lia. }
  destruct Hwf as (Hte & Hec & Hlen & _).
  destruct (lookup_lt_is_Some_2 (current_time env) (row_of n i)) as [t Ht].
  { unfold current_time. by rewrite length_fmap, Hlen. }
  destruct (lookup_lt_is_Some_2 (event_command self) (row_of n i)) as [row Hrow];
    [by rewrite Hec|].
  destruct (lookup_lt_is_Some_2 (time_elapsed self) (row_of n i)) as [te Hte'];
    [by rewrite Hte|].
  exists self', t, row. split; [done|]. split; [done|]. split; [done|].
  destruct (Hrows (row_of n i)) as [H1 H2].
  unfold command in *.
  rewrite decide_True in H1 by (by apply list_elem_of_fmap_2).
  rewrite decide_True in H2 by (by apply list_elem_of_fmap_2).
  rewrite H1, H2, Hte', Hrow. simpl.
  unfold resample_flag. rewrite Ht. repeat split.
  intros Hnn. unfold row_of. by destruct (Z.leb_spec 0 i); [|lia].
Qed.

Lemma resample_postcondition_witness :
  ∃ self' t row,
    _resample_command cold [0%Z] (after_updates 1) = (Returned, self') ∧
    current_time cold !! row_of 1 0 = Some t ∧
    command (after_updates 1) !! row_of 1 0 = Some row ∧
    command self' !! row_of 1 0 =
      Some (if F32.geb t F32.two then F32.one else F32.zero, row.2) ∧
    time_elapsed self' !! row_of 1 0 = Some F32.zero ∧
    ((0 ≤ 0)%Z → row_of 1 0 = Z.to_nat 0).
Proof.
  apply (resample_postcondition 1 cold [0%Z] (after_updates 1) 0%Z).
  - repeat split; reflexivity.
  - repeat constructor; lia.
  - constructor.
Defined.

(** [ones_like] and [zeros_like] depend on the shape only. *)
Lemma fmap_const_length {A B} (a : B) (l k : list A) :
  length l = length k → (λ _, a) <$> l = (λ _, a) <$> k.
Proof.
  revert k. induction l as [|x l IH]; intros [|y k]; simpl; intros [=]; [done|].
  f_equal. by apply IH.
Qed.

(** C6 (idempotence of resample).  Whatever the object, the id list and the
    environment buffers, a second [_resample_command] with the same inputs
    gives the outcome and the object the first one gave. *)
Theorem resample_idempotent env env_ids self :
  _resample_command env env_ids (_resample_command env env_ids self).2 =
  _resample_command env env_ids self.
Proof.
  unfold _resample_command at 2 3.
  destruct (Torch.index_select (current_time env) env_ids) as [ct|] eqn:Ect;
    [|simpl; unfold _resample_command; by rewrite Ect].
  destruct (Torch.index_select (fst <$> event_command self) env_ids) as [col|] eqn:Ecol;
    [|simpl; unfold _resample_command; by rewrite Ect, Ecol].
  simpl.
  match goal with
  | |- context [Torch.index_put_with set_col0 _ _ ?v] => set (vals := v)
  end.
  destruct (Torch.index_put_with set_col0 (event_command self) env_ids vals)
    as [ec|] eqn:Eec;
    [|simpl; unfold _resample_command; rewrite Ect, Ecol; simpl; fold vals;
      by rewrite Eec].
  pose proof (length_index_put_with _ _ _ _ _ Eec) as Hlen.
  destruct (index_select_resize (fst <$> event_command self) (fst <$> ec) env_ids col Ecol)
    as (col' & Ecol' & Hcol'); [by rewrite !length_fmap|].
  assert (Torch.where_ ((λ t, F32.geb t F32.two) <$> ct)
            ((λ _, F32.one) <$> col') ((λ _, F32.zero) <$> col') = vals) as Hvals.
  { unfold vals.
    by rewrite (fmap_const_length F32.one col' col Hcol'),
               (fmap_const_length F32.zero col' col Hcol'). }
  pose proof (index_put_with_twice set_col0 _ _ _ _ (λ _ _ _, eq_refl) Eec) as Eec2.
  destruct (Torch.index_put_with set_all (time_elapsed self) env_ids _) as [te|] eqn:Ete;
    simpl; unfold _resample_command; simpl; rewrite Ect, Ecol'; simpl;
    rewrite Hvals, Eec2; simpl.
  - by rewrite (index_put_with_twice set_all _ _ _ _ (λ _ _ _, eq_refl) Ete).
  - by rewrite Ete.
Qed.

(** C8, as stated, fails for negative ids: with two environments the id -1
    is outside [[0, 2)], yet the call returns and rewrites row 1. *)
Lemma resample_negative_id_counterexample :
  ¬ (0 ≤ -1 < 2)%Z ∧
  ∃ self', _resample_command env_C [(-1)%Z] (__init__ default_cfg 2) = (Returned, self') ∧
    command (__init__ default_cfg 2) !! 1 = Some (F32.zero, F32.zero) ∧
    command self' !! 1 = Some (F32.one, F32.zero).
Proof.
  split; [lia|]. eexists. repeat split; reflexivity.
Qed.

(** C8, amended.  With [n] environments, a call of [_resample_command]
    whose id list holds an id [>= n] or [< -n] raises [IndexError] and
    leaves the object as it was; an id in [[-n, 0)] is no error, it
    addresses row [id + n]: when all ids lie in [[-n, n)] the call returns
    and writes the rows [row_of n id] and no other. *)
Theorem resample_out_of_range :
  (∀ n env env_ids self i,
     wf n env self →
     i ∈ env_ids →
     (Z.of_nat n ≤ i ∨ i < - Z.of_nat n)%Z →
     _resample_command env env_ids self = (IndexError, self)) ∧
  (∀ n env env_ids self,
     wf n env self →
     Forall (λ i, (- Z.of_nat n ≤ i < Z.of_nat n)%Z) env_ids →
     ∃ self', _resample_command env env_ids self = (Returned, self') ∧
       ∀ j, j ∉ row_of n <$> env_ids →
            time_elapsed self' !! j = time_elapsed self !! j ∧
            command self' !! j = command self !! j).
Proof.
  split.
  - intros n env env_ids self i Hwf Hin Hout.
    apply (resample_raises n); [done|]. by eapply mapM_norm_index_out.
  - intros n env env_ids self Hwf Hids.
    pose proof (mapM_norm_index_valid n env_ids Hids) as Hks.
    destruct (resample_rows n env env_ids self _ Hwf Hks) as (self' & Hret & _ & _ & Hrows).
    exists self'. split; [done|]. intros j Hj.
    destruct (Hrows j) as [H1 H2].
    rewrite decide_False in H1 by done. rewrite decide_False in H2 by done.
    done.
Qed.

Lemma resample_out_of_range_witness :
  _resample_command env_C [0%Z; 2%Z] (__init__ default_cfg 2) =
  (IndexError, __init__ default_cfg 2).
Proof.
  apply (proj1 resample_out_of_range 2 env_C [0%Z; 2%Z] (__init__ default_cfg 2) 2%Z).
  - repeat split; reflexivity.
  - right. left.
  - left. simpl. lia.
Defined.

(** C7 (determinism and noninterference).  Two streams of update calls,
    on objects that may differ in size and in every other row, are
    followed at environment [i] of the first and environment [j] of the
    second.  If the two rows start equal and every pair of calls has the
    same [step_dt] and the same reset entry for the row, the two rows are
    equal after the streams (hence after every prefix of them). *)
Theorem update_noninterference n1 n2 i j envs1 envs2 s1 s2 :
  shaped n1 s1 → shaped n2 s2 →
  Forall (env_shaped n1) envs1 → Forall (env_shaped n2) envs2 →
  i < n1 → j < n2 →
  event_during_time s1 = event_during_time s2 →
  Forall2 (same_step i j) envs1 envs2 →
  same_row i j s1 s2 →
  same_row i j (updates envs1 s1) (updates envs2 s2).
Proof.
  intros Hs1 Hs2 He1 He2 Hi Hj Hdur Hsteps. revert s1 s2 Hs1 Hs2 He1 He2 Hdur.
  induction Hsteps as [|e1 e2 envs1 envs2 [Hdt Hrst] _ IH];
    intros s1 s2 Hs1 Hs2 He1 He2 Hdur [Hte Hrow]; [done|].
  apply Forall_cons in He1 as [[Hl1 Hr1] He1].
  apply Forall_cons in He2 as [[Hl2 Hr2] He2].
  destruct Hs1 as [Hte1 Hec1]. destruct Hs2 as [Hte2 Hec2].
  destruct (lookup_lt_is_Some_2 (time_elapsed s1) i) as [te Hte']; [by rewrite Hte1|].
  destruct (lookup_lt_is_Some_2 (event_command s1) i) as [row Hrow']; [by rewrite Hec1|].
  destruct (lookup_lt_is_Some_2 (reset_buf e1) i) as [rst Hrst']; [by rewrite Hr1|].
  assert (wf n1 e1 s1) as Hwf1 by done.
  assert (wf n2 e2 s2) as Hwf2 by done.
  unfold command in Hrow.
  destruct (update_row n1 e1 s1 i te row rst Hwf1 Hte' Hrow' Hrst')
    as (s1' & Hret1 & (? & ? & _) & Hd1 & Ha1 & Hb1).
  destruct (update_row n2 e2 s2 j te row rst Hwf2)
    as (s2' & Hret2 & (? & ? & _) & Hd2 & Ha2 & Hb2); [congruence..|].
  simpl. rewrite Hret1, Hret2. simpl.
  apply IH; try done; [congruence|].
  split; [rewrite Ha1, Ha2|rewrite Hb1, Hb2]; by rewrite Hdt, Hdur.
Qed.

Lemma update_noninterference_witness :
  same_row 1 0 (updates [env_C] state_C)
    (updates [env1 500 f32_0_1 false] (after_updates 1)).
Proof.
  apply (update_noninterference 2 1 1 0).
  - split; reflexivity.
  - split; reflexivity.
  - repeat constructor.
  - repeat constructor.
  - lia.
  - lia.
  - reflexivity.
  - repeat constructor.
  - split; reflexivity.
Defined.

(** C9 (boolean as float).  In every state the object goes through, from
    construction on and after every resample and every update call, the
    active entry of every row of [command] is the float 0.0 or the float
    1.0. *)
Theorem active_flag_is_boolean cfg n self :
  reachable cfg n self → Forall flag_is_bool (command self).
Proof.
  induction 1 as [|env ids self Hl Hr Hreach IH|env self Hl Hr Hreach IH].
  - apply Forall_forall. intros row ->%elem_of_replicate_inv. by left.
  - destruct (reachable_shape _ _ _ Hreach) as [Hte Hec].
    assert (wf n env self) as Hwf by done.
    destruct (mapM (Torch.norm_index n) ids) as [ks|] eqn:E.
    + destruct (resample_rows n env ids self ks Hwf E) as (s' & -> & _ & _ & Hrows).
      simpl. apply Forall_lookup. intros j row' Hj.
      destruct (Hrows j) as [_ H2]. rewrite H2 in Hj.
      case_decide; [|by eapply Forall_lookup_1].
      destruct (event_command self !! j) as [row|]; simplify_eq/=.
      unfold flag_is_bool, resample_flag. simpl.
      repeat case_match; auto.
    + by rewrite (resample_raises n env ids self Hwf E).
  - destruct (reachable_shape _ _ _ Hreach) as [Hte Hec].
    assert (wf n env self) as Hwf by done.
    apply Forall_lookup. intros j row' Hj.
    destruct (update_wf n env self Hwf) as (s' & Hret & (_ & Hec' & _) & _).
    rewrite Hret in Hj. simpl in Hj.
    assert (j < n) as Hlt by (rewrite <- Hec'; by eapply lookup_lt_Some).
    destruct (lookup_lt_is_Some_2 (time_elapsed self) j) as [te Hte']; [by rewrite Hte|].
    destruct (lookup_lt_is_Some_2 (event_command self) j) as [row Hrow]; [by rewrite Hec|].
    destruct (lookup_lt_is_Some_2 (reset_buf env) j) as [rst Hrst]; [by rewrite Hr|].
    destruct (update_row n env self j te row rst Hwf Hte' Hrow Hrst)
      as (s'' & Hret' & _ & _ & _ & Hb).
    rewrite Hret in Hret'. injection Hret' as <-.
    unfold command in *. rewrite Hb in Hj. injection Hj as <-.
    unfold flag_is_bool, row_update, row_accumulate.
    destruct rst; simpl; [by left|apply of_bool_cases].
Qed.

Lemma active_flag_is_boolean_witness :
  Forall flag_is_bool (command started).
Proof.
  apply (active_flag_is_boolean default_cfg 1 started).
  unfold started. apply reach_resample; [reflexivity..|]. apply reach_init.
Defined.

(** C10 (clock synchronisation).  When [_update_command] is left, column 1
    of [command] is the internal timer [time_elapsed], row for row. *)
Theorem update_syncs_exposed_elapsed env self :
  (command (_update_command env self).2).*2 = time_elapsed (_update_command env self).2.
Proof.
  unfold _update_command, reset_override.
  pose proof (accumulate_deactivate_sync env self) as Hsync.
  set (s1 := accumulate_deactivate env self) in *. clearbody s1.
  case_bool_decide; [|done].
  assert (length (event_command s1) = length (time_elapsed s1)) as Hlen.
  { rewrite <- Hsync. unfold command. by rewrite length_fmap. }
  destruct (mapM (Torch.norm_index (length (time_elapsed s1)))
              (Torch.nonzero (reset_buf env))) as [ks|] eqn:E.
  - pose proof E as E'. rewrite <- Hlen in E'.
    rewrite (index_put_with_Some set_all _ _ _ ks E). simpl.
    rewrite (index_put_with_Some set_all _ _ _ ks E'). simpl.
    unfold command in *. simpl.
    apply list_eq. intros j.
    rewrite list_lookup_fmap, !lookup_put_all by done.
    rewrite (length_mapM _ _ _ E), !last_write_replicate.
    rewrite <- Hsync, list_lookup_fmap.
    case_decide; by destruct (event_command s1 !! j).
  - by rewrite (index_put_with_None set_all _ _ _ E).
Qed.

(** ** Further properties of the state machine *)

Lemma EventCommand_eq (s1 s2 : EventCommand) :
  time_elapsed s1 = time_elapsed s2 →
  event_command s1 = event_command s2 →
  event_during_time s1 = event_during_time s2 →
  s1 = s2.
Proof. destruct s1, s2; simpl; by intros -> -> ->. Qed.

Lemma resample_duration env env_ids self :
  event_during_time (_resample_command env env_ids self).2 = event_during_time self.
Proof.
  unfold _resample_command. repeat case_match; done.
Qed.

Lemma update_duration env self :
  event_during_time (_update_command env self).2 = event_during_time self.
Proof.
  unfold _update_command, reset_override. repeat case_match; done.
Qed.

(** X1.  The object is sized once: in every state it goes through, both
    tensors have the [n] rows of the construction, and
    [event_during_time] is the configured one. *)
Theorem reachable_keeps_shape cfg n self :
  reachable cfg n self →
  shaped n self ∧ event_during_time self = cfg_event_during_time cfg.
Proof.
  intros Hreach. split; [by apply (reachable_shape cfg)|].
  induction Hreach as [|env ids self _ _ _ IH|env self _ _ _ IH].
  - done.
  - by rewrite resample_duration.
  - by rewrite update_duration.
Qed.

Lemma reachable_keeps_shape_witness :
  shaped 1 resampled_cold ∧
  event_during_time resampled_cold = cfg_event_during_time default_cfg.
Proof.
  apply (reachable_keeps_shape default_cfg 1 resampled_cold).
  unfold resampled_cold.
  apply reach_resample; [reflexivity..|].
  change (after_updates 1) with (_update_command warm started).2.
  apply reach_update; [reflexivity..|].
  apply reach_resample; [reflexivity..|]. apply reach_init.
Defined.

(** X2.  [_update_command] never activates: an environment whose flag is
    not 1.0 has timer 0.0 and row (0.0, 0.0) after any non-empty stream of
    update calls, whatever the resets and the step sizes. *)
Theorem update_never_activates n envs self i row :
  shaped n self →
  Forall (env_shaped n) envs →
  envs ≠ [] →
  command self !! i = Some row →
  F32.eqb row.1 F32.one = false →
  time_elapsed (updates envs self) !! i = Some F32.zero ∧
  command (updates envs self) !! i = Some (F32.zero, F32.zero).
Proof.
  intros Hs He Hne Hrow Hflag.
  assert (∀ envs self, shaped n self → Forall (env_shaped n) envs →
            time_elapsed self !! i = Some F32.zero →
            command self !! i = Some (F32.zero, F32.zero) →
            time_elapsed (updates envs self) !! i = Some F32.zero ∧
            command (updates envs self) !! i = Some (F32.zero, F32.zero)) as Hrest.
  { clear. induction envs as [|env envs IH]; intros self [Hte Hec] He Ht Hr; [done|].
    apply Forall_cons in He as [[Hl Hrb] He].
    assert (i < n) as Hi by (rewrite <- Hte; by eapply lookup_lt_Some).
    destruct (lookup_lt_is_Some_2 (reset_buf env) i) as [rst Hrst]; [by rewrite Hrb|].
    assert (wf n env self) as Hwf by done.
    destruct (update_row n env self i _ _ rst Hwf Ht Hr Hrst)
      as (s' & Hret & (? & ? & _) & _ & H1 & H2).
    simpl. rewrite Hret. simpl. apply IH; [done|done| |].
    - rewrite H1. by destruct rst.
    - rewrite H2. by destruct rst. }
  destruct envs as [|env envs]; [done|].
  apply Forall_cons in He as [[Hl Hrb] He]. destruct Hs as [Hte Hec].
  assert (i < n) as Hi by (rewrite <- Hec; by eapply lookup_lt_Some).
  destruct (lookup_lt_is_Some_2 (time_elapsed self) i) as [te Ht]; [by rewrite Hte|].
  destruct (lookup_lt_is_Some_2 (reset_buf env) i) as [rst Hrst]; [by rewrite Hrb|].
  assert (wf n env self) as Hwf by done.
  destruct (update_row n env self i te row rst Hwf Ht Hrow Hrst)
    as (s' & Hret & (? & ? & _) & _ & H1 & H2).
  simpl. rewrite Hret. simpl. apply Hrest; [done|done| |].
  - rewrite H1. unfold row_update, row_accumulate. rewrite Hflag. by destruct rst.
  - rewrite H2. unfold row_update, row_accumulate. rewrite Hflag. by destruct rst.
Qed.

Lemma update_never_activates_witness :
  time_elapsed (updates [warm; warm] resampled_cold) !! 0 = Some F32.zero ∧
  command (updates [warm; warm] resampled_cold) !! 0 = Some (F32.zero, F32.zero).
Proof.
  apply (update_never_activates 1 [warm; warm] resampled_cold 0 (F32.zero, f32_0_3)).
  - split; reflexivity.
  - repeat constructor.
  - discriminate.
  - reflexivity.
  - reflexivity.
Defined.

(** X3.  After a call of [_update_command], every environment that is
    shown active has its timer and its exposed elapsed value within
    [event_during_time]. *)
Theorem active_within_duration n env self i :
  wf n env self →
  i < n →
  ∃ self' te' row',
    _update_command env self = (Returned, self') ∧
    time_elapsed self' !! i = Some te' ∧
    command self' !! i = Some row' ∧
    (row'.1 = F32.one →
       row'.2 = te' ∧ F32.leb te' (event_during_time self') = true).
Proof.
  intros Hwf Hi. pose proof Hwf as (Hte & Hec & _ & Hrb).
  destruct (lookup_lt_is_Some_2 (time_elapsed self) i) as [te Ht]; [by rewrite Hte|].
  destruct (lookup_lt_is_Some_2 (event_command self) i) as [row Hrow]; [by rewrite Hec|].
  destruct (lookup_lt_is_Some_2 (reset_buf env) i) as [rst Hrst]; [by rewrite Hrb|].
  destruct (update_row n env self i te row rst Hwf Ht Hrow Hrst)
    as (s' & Hret & _ & Hdur & H1 & H2).
  exists s'. do 2 eexists. split; [done|]. split; [exact H1|]. split; [exact H2|].
  rewrite Hdur. unfold row_update, row_accumulate.
  destruct rst; simpl; [discriminate|].
  rewrite of_bool_one, andb_true_iff. by intros [_ ?].
Qed.

Lemma active_within_duration_witness :
  ∃ self' te' row',
    _update_command warm (after_updates 2) = (Returned, self') ∧
    time_elapsed self' !! 0 = Some te' ∧
    command self' !! 0 = Some row' ∧
    (row'.1 = F32.one →
       row'.2 = te' ∧ F32.leb te' (event_during_time self') = true).
Proof.
  apply (active_within_duration 1 warm (after_updates 2) 0).
  - repeat split; reflexivity.
  - lia.
Defined.

(** X4.  [_resample_command] takes its id list as a set of rows: two lists
    of ids in [[-n, n)] that address the same rows (in any order, with or
    without repetitions, by positive or negative index) give the same
    object. *)
Theorem resample_ids_as_set n env ids1 ids2 self :
  wf n env self →
  Forall (λ i, (- Z.of_nat n ≤ i < Z.of_nat n)%Z) ids1 →
  Forall (λ i, (- Z.of_nat n ≤ i < Z.of_nat n)%Z) ids2 →
  (∀ j, j ∈ row_of n <$> ids1 ↔ j ∈ row_of n <$> ids2) →
  _resample_command env ids1 self = _resample_command env ids2 self.
Proof.
  intros Hwf H1 H2 Hsame.
  destruct (resample_rows n env ids1 self _ Hwf (mapM_norm_index_valid n ids1 H1))
    as (s1 & -> & _ & Hd1 & Hr1).
  destruct (resample_rows n env ids2 self _ Hwf (mapM_norm_index_valid n ids2 H2))
    as (s2 & -> & _ & Hd2 & Hr2).
  f_equal. apply EventCommand_eq; [| |congruence].
  - apply list_eq. intros j. destruct (Hr1 j) as [-> _]. destruct (Hr2 j) as [-> _].
    specialize (Hsame j). repeat case_decide; tauto || done.
  - apply list_eq. intros j. destruct (Hr1 j) as [_ Ha]. destruct (Hr2 j) as [_ Hb].
    unfold command in *. rewrite Ha, Hb.
    specialize (Hsame j). repeat case_decide; tauto || done.
Qed.

Lemma resample_ids_as_set_witness :
  _resample_command env_C [0%Z; 1%Z; 0%Z] state_C =
  _resample_command env_C [(-1)%Z; (-2)%Z] state_C.
Proof.
  apply (resample_ids_as_set 2 env_C [0%Z; 1%Z; 0%Z] [(-1)%Z; (-2)%Z] state_C).
  - repeat split; reflexivity.
  - repeat constructor; lia.
  - repeat constructor; lia.
  - intros j. change (row_of 2 <$> [0%Z; 1%Z; 0%Z]) with [0; 1; 0].
    change (row_of 2 <$> [(-1)%Z; (-2)%Z]) with [1; 0].
    rewrite !elem_of_cons, !elem_of_nil. tauto.
Defined.

(** X5.  Two resamples in a row, against the same environment buffers, are
    one resample of the two id lists together. *)
Theorem resample_twice_is_resample_both n env ids1 ids2 self :
  wf n env self →
  Forall (λ i, (- Z.of_nat n ≤ i < Z.of_nat n)%Z) ids1 →
  Forall (λ i, (- Z.of_nat n ≤ i < Z.of_nat n)%Z) ids2 →
  _resample_command env ids2 (_resample_command env ids1 self).2 =
  _resample_command env (ids1 ++ ids2) self.
Proof.
  intros Hwf H1 H2.
  destruct (resample_rows n env ids1 self _ Hwf (mapM_norm_index_valid n ids1 H1))
    as (s1 & -> & Hwf1 & Hd1 & Hr1). simpl.
  destruct (resample_rows n env ids2 s1 _ Hwf1 (mapM_norm_index_valid n ids2 H2))
    as (s2 & -> & _ & Hd2 & Hr2).
  assert (Forall (λ i, (- Z.of_nat n ≤ i < Z.of_nat n)%Z) (ids1 ++ ids2)) as H12
    by (by apply Forall_app).
  destruct (resample_rows n env (ids1 ++ ids2) self _ Hwf
              (mapM_norm_index_valid n _ H12)) as (s & -> & _ & Hd & Hr).
  f_equal. apply EventCommand_eq; [| |congruence].
  - apply list_eq. intros j.
    destruct (Hr j) as [-> _]. destruct (Hr2 j) as [-> _]. destruct (Hr1 j) as [-> _].
    rewrite fmap_app.
    repeat case_decide; rewrite ?elem_of_app in *; try tauto;
      by destruct (time_elapsed self !! j).
  - apply list_eq. intros j.
    destruct (Hr j) as [_ Ha]. destruct (Hr2 j) as [_ Hb]. destruct (Hr1 j) as [_ Hc].
    unfold command in *. rewrite Ha, Hb, Hc, fmap_app.
    repeat case_decide; rewrite ?elem_of_app in *; try tauto;
      by destruct (event_command self !! j).
Qed.

Lemma resample_twice_is_resample_both_witness :
  _resample_command env_C [1%Z] (_resample_command env_C [0%Z] state_C).2 =
  _resample_command env_C ([0%Z] ++ [1%Z]) state_C.
Proof.
  apply (resample_twice_is_resample_both 2 env_C [0%Z] [1%Z] state_C).
  - repeat split; reflexivity.
  - repeat constructor; lia.
  - repeat constructor; lia.
Defined.

Lemma warmup_check_all : warmup_check_upto 1000 = true.
Proof. vm_compute. reflexivity. Qed.

(** X6.  With the reference [sim.dt = 0.005] a resample activates an
    environment exactly from step 100 of its episode on: for every step
    count [n] up to the time-out at 1000 steps, the flag written is 1.0 if
    [100 <= n] and 0.0 otherwise. *)
Theorem reference_warmup_is_100_steps N env env_ids self i n :
  wf N env self →
  physics_dt env = f32_0_005 →
  Forall (λ i, (- Z.of_nat N ≤ i < Z.of_nat N)%Z) env_ids →
  i ∈ env_ids →
  episode_length_buf env !! row_of N i = Some n →
  (0 ≤ n ≤ 1000)%Z →
  ∃ self' e,
    _resample_command env env_ids self = (Returned, self') ∧
    command self' !! row_of N i =
      Some (if (100 <=? n)%Z then F32.one else F32.zero, e).
Proof.
  intros Hwf Hdt Hids Hi Hn Hrange.
  destruct (resample_rows N env env_ids self _ Hwf (mapM_norm_index_valid N _ Hids))
    as (s' & Hret & _ & _ & Hrows).
  destruct (Hrows (row_of N i)) as [_ Hrow].
  rewrite decide_True in Hrow by (by apply list_elem_of_fmap_2).
  assert (row_of N i < N) as Hlt.
  { destruct Hwf as (_ & _ & <- & _). by eapply lookup_lt_Some. }
  destruct (lookup_lt_is_Some_2 (event_command self) (row_of N i)) as [row Hr];
    [destruct Hwf as (_ & -> & _); done|].
  rewrite Hr in Hrow. simpl in Hrow.
  exists s', row.2. split; [done|]. rewrite Hrow. do 2 f_equal.
  pose proof warmup_check_all as Hall. unfold warmup_check_upto in Hall.
  rewrite forallb_forall in Hall.
  assert (warmup_check n = true) as Hchk.
  { apply Hall. apply list_elem_of_In, elem_of_seqZ. lia. }
  unfold warmup_check in Hchk.
  assert (resample_flag env (row_of N i) = resample_flag (reference_env n) 0) as ->.
  { unfold resample_flag, current_time. rewrite !list_lookup_fmap, Hn, Hdt. done. }
  unfold resample_flag in *.
  destruct (current_time (reference_env n) !! 0) as [t|];
    repeat case_match; done.
Qed.

Lemma reference_warmup_is_100_steps_witness :
  ∃ self' e,
    _resample_command (reference_env 99) [0%Z] (after_updates 1) = (Returned, self') ∧
    command self' !! row_of 1 0 =
      Some (if (100 <=? 99)%Z then F32.one else F32.zero, e).
Proof.
  apply (reference_warmup_is_100_steps 1 (reference_env 99) [0%Z] (after_updates 1) 0%Z 99%Z).
  - repeat split; reflexivity.
  - reflexivity.
  - repeat constructor; lia.
  - constructor.
  - reflexivity.
  - lia.
Defined.

(** ** Debug visualisation *)

Lemma reachable_flags cfg n self :
  reachable cfg n self → Forall flag_is_bool (event_command self).
Proof.
  induction 1 as [|env ids self Hl Hr Hreach IH|env self Hl Hr Hreach IH].
  - apply Forall_forall. intros row ->%elem_of_replicate_inv. by left.
  - destruct (reachable_shape _ _ _ Hreach) as [Hte Hec].
    assert (wf n env self) as Hwf by done.
    destruct (mapM (Torch.norm_index n) ids) as [ks|] eqn:E.
    + destruct (resample_rows n env ids self ks Hwf E) as (s' & -> & _ & _ & Hrows).
      simpl. apply Forall_lookup. intros j row' Hj.
      destruct (Hrows j) as [_ H2]. unfold command in H2. rewrite H2 in Hj.
      case_decide; [|by eapply Forall_lookup_1].
      destruct (event_command self !! j) as [row|]; simplify_eq/=.
      unfold flag_is_bool, resample_flag. simpl.
      repeat case_match; auto.
    + by rewrite (resample_raises n env ids self Hwf E).
  - destruct (reachable_shape _ _ _ Hreach) as [Hte Hec].
    assert (wf n env self) as Hwf by done.
    destruct (update_wf n env self Hwf) as (s' & Hret & (_ & Hec' & _) & _).
    rewrite Hret. simpl. apply Forall_lookup. intros j row' Hj.
    assert (j < n) as Hlt by (rewrite <- Hec'; by eapply lookup_lt_Some).
    destruct (lookup_lt_is_Some_2 (time_elapsed self) j) as [te Hte']; [by rewrite Hte|].
    destruct (lookup_lt_is_Some_2 (event_command self) j) as [row Hrow]; [by rewrite Hec|].
    destruct (lookup_lt_is_Some_2 (reset_buf env) j) as [rst Hrst]; [by rewrite Hr|].
    destruct (update_row n env self j te row rst Hwf Hte' Hrow Hrst)
      as (s'' & Hret' & _ & _ & _ & Hb).
    rewrite Hret in Hret'. injection Hret' as <-.
    unfold command in Hb. rewrite Hb in Hj. injection Hj as <-.
    unfold flag_is_bool, row_update, row_accumulate.
    destruct rst; simpl; [by left|apply of_bool_cases].
Qed.

Lemma nonzero_from_partition {A} (p q : A → bool) k (l : list A) :
  Forall (λ x, q x = negb (p x)) l →
  Torch.nonzero_from k (p <$> l) ++ Torch.nonzero_from k (q <$> l)
    ≡ₚ seqZ k (Z.of_nat (length l)).
Proof.
  intros H. revert k. induction H as [|x l Hx _ IH]; intros k; [done|].
  cbn [fmap list_fmap Torch.nonzero_from length].
  rewrite seqZ_cons by lia.
  replace (Z.pred (Z.of_nat (S (length l)))) with (Z.of_nat (length l)) by lia.
  rewrite Hx. specialize (IH (k + 1)%Z). unfold Z.succ.
  destruct (p x); simpl.
  - by rewrite IH.
  - rewrite <- Permutation_middle. by rewrite IH.
Qed.

(** X7.  In every state the object goes through, the two index sets of
    [_debug_vis_callback] split the environments: listed one after the
    other they are a rearrangement of 0, ..., n-1, so every environment is
    in exactly one of them. *)
Theorem debug_vis_indices_partition cfg n self :
  reachable cfg n self →
  active_indices self ++ inactive_indices self ≡ₚ seqZ 0 (Z.of_nat n).
Proof.
  intros Hreach. destruct (reachable_shape _ _ _ Hreach) as [_ <-].
  apply nonzero_from_partition.
  eapply Forall_impl; [by eapply reachable_flags|].
  intros row [-> | ->]; reflexivity.
Qed.

Lemma debug_vis_indices_partition_witness :
  active_indices (after_updates 4) ++ inactive_indices (after_updates 4)
    ≡ₚ seqZ 0 (Z.of_nat 1).
Proof.
  apply (debug_vis_indices_partition default_cfg 1 (after_updates 4)).
  change (after_updates 4) with
    (_update_command warm (_update_command warm (_update_command warm
       (_update_command warm started).2).2).2).2.
  repeat (apply reach_update; [reflexivity..|]).
  apply reach_resample; [reflexivity..|]. apply reach_init.
Defined.

Lemma index_select_nonzero {A} (t : list A) (bs : list bool) :
  length bs = length t →
  ∃ ps, Torch.index_select t (Torch.nonzero bs) = Some ps ∧
        Forall2 (λ i p, t !! Z.to_nat i = Some p) (Torch.nonzero bs) ps.
Proof.
  intros Hlen.
  destruct (index_select_Some t (Torch.nonzero bs) (Z.to_nat <$> Torch.nonzero bs))
    as (ps & Hps & Hall).
  { apply mapM_norm_index_nonneg. rewrite <- Hlen. apply nonzero_in_range. }
  exists ps. split; [done|]. by apply Forall2_fmap_l in Hall.
Qed.

(** X8.  With the robot initialised, one position per environment and both
    visualizers present, [_debug_vis_callback] returns: each visualizer
    whose index set is not empty shows the positions of its environments,
    raised by 0.65, and a visualizer whose index set is empty is not
    called, so it keeps what it showed before. *)
Theorem debug_vis_callback_shows robot self v ma mi :
  is_initialized robot = true →
  length (root_pos_w robot) = length (event_command self) →
  command_active_visualizer v = Some ma →
  command_inactive_visualizer v = Some mi →
  ∃ pa pi,
    Forall2 (λ i p, raised <$> root_pos_w robot !! Z.to_nat i = Some p)
            (active_indices self) pa ∧
    Forall2 (λ i p, raised <$> root_pos_w robot !! Z.to_nat i = Some p)
            (inactive_indices self) pi ∧
    _debug_vis_callback robot self v =
      (VisReturned,
       {| command_active_visualizer :=
            Some (if bool_decide (active_indices self = []) then ma
                  else visualize pa ma);
          command_inactive_visualizer :=
            Some (if bool_decide (inactive_indices self = []) then mi
                  else visualize pi mi) |}).
Proof.
  intros Hinit Hlen Ha Hi.
  destruct (index_select_nonzero (raised <$> root_pos_w robot)
              ((λ row, F32.eqb row.1 F32.one) <$> event_command self))
    as (pa & Hpa & Hfa); [by rewrite !length_fmap|].
  destruct (index_select_nonzero (raised <$> root_pos_w robot)
              ((λ row, F32.eqb row.1 F32.zero) <$> event_command self))
    as (pi & Hpi & Hfi); [by rewrite !length_fmap|].
  exists pa, pi. split; [|split].
  - eapply Forall2_impl; [exact Hfa|]. intros i p Hp. simpl in *.
    by rewrite <- list_lookup_fmap.
  - eapply Forall2_impl; [exact Hfi|]. intros i p Hp. simpl in *.
    by rewrite <- list_lookup_fmap.
  - unfold _debug_vis_callback. rewrite Hinit. cbn [negb].
    fold (active_indices self) in *. fold (inactive_indices self) in *.
    assert (∀ l : list Z, bool_decide (0 < length l) = negb (bool_decide (l = [])))
      as Hempty.
    { intros [|x l]; [done|].
      rewrite bool_decide_true by (simpl; lia). by rewrite bool_decide_false. }
    rewrite !Hempty, Ha, Hpa.
    destruct (bool_decide (active_indices self = [])); cbn [negb];
      rewrite ?Hi, ?Hpi;
      destruct (bool_decide (inactive_indices self = [])); cbn [negb];
      cbn [command_active_visualizer command_inactive_visualizer];
      rewrite ?Hi, ?Hpi; try done.
    all: by destruct v; simpl in *; subst.
Qed.

Lemma debug_vis_callback_shows_witness :
  ∃ pa pi,
    Forall2 (λ i p, raised <$> root_pos_w robot3 !! Z.to_nat i = Some p)
            (active_indices state3) pa ∧
    Forall2 (λ i p, raised <$> root_pos_w robot3 !! Z.to_nat i = Some p)
            (inactive_indices state3) pi ∧
    _debug_vis_callback robot3 state3 enabled_vis =
      (VisReturned,
       {| command_active_visualizer :=
            Some (if bool_decide (active_indices state3 = [])
                  then new_markers GREEN_CUBOID_MARKER_CFG
                  else visualize pa (new_markers GREEN_CUBOID_MARKER_CFG));
          command_inactive_visualizer :=
            Some (if bool_decide (inactive_indices state3 = [])
                  then new_markers RED_CUBOID_MARKER_CFG
                  else visualize pi (new_markers RED_CUBOID_MARKER_CFG)) |}).
Proof.
  apply (debug_vis_callback_shows robot3 state3 enabled_vis); reflexivity.
Defined.

Lemma debug_vis_callback_frame robot self v :
  let v' := (_debug_vis_callback robot self v).2 in
  (command_active_visualizer v = None → command_active_visualizer v' = None) ∧
  (command_inactive_visualizer v = None → command_inactive_visualizer v' = None) ∧
  (∀ m, command_active_visualizer v = Some m →
        ∃ ps, command_active_visualizer v' = Some (visualize ps m)) ∧
  (∀ m, command_inactive_visualizer v = Some m →
        ∃ ps, command_inactive_visualizer v' = Some (visualize ps m)).
Proof.
  assert (∀ m, m = visualize (translations m) m) as Hid by (by intros []).
  unfold _debug_vis_callback.
  destruct (is_initialized robot); cbn [negb].
  - destruct v as [[ma|] [mi|]];
      cbn [command_active_visualizer command_inactive_visualizer];
      repeat match goal with
        | |- context [bool_decide ?P] => destruct (bool_decide P)
        | |- context [Torch.index_select ?t ?l] => destruct (Torch.index_select t l)
        end;
      cbn [snd command_active_visualizer command_inactive_visualizer];
      repeat split; try done; try (intros m [= <-]);
      try (by eexists); by (eexists; f_equal; apply Hid).
  - cbn [snd]. repeat split; try done; intros m ->; eexists; f_equal; apply Hid.
Qed.

(** X9.  From an object without visualizers, whatever calls of
    [_set_debug_vis_impl] and [_debug_vis_callback] follow, the two
    visualizers exist together or not at all, the active one carries
    [command_active_visualizer_cfg] and the inactive one
    [command_inactive_visualizer_cfg], and both are visible or both are
    hidden. *)
Theorem visualizers_stay_paired cfgs v :
  vis_reachable cfgs v → visualizers_paired cfgs v.
Proof.
  induction 1 as [|b v _ IH|robot self v _ IH].
  - by left.
  - destruct IH as [->|(ma & mi & Ha & Hi & Hca & Hci & Hv)].
    + destruct b; [right|by left].
      do 2 eexists. repeat split; done.
    + right. unfold _set_debug_vis_impl. rewrite Ha, Hi.
      destruct b; simpl; rewrite ?Ha, ?Hi; simpl;
        do 2 eexists; repeat split; done.
  - destruct (debug_vis_callback_frame robot self v) as (Hna & Hni & Hsa & Hsi).
    destruct IH as [->|(ma & mi & Ha & Hi & Hca & Hci & Hv)].
    + left. specialize (Hna eq_refl). specialize (Hni eq_refl).
      destruct (_debug_vis_callback _ _ _).2; simpl in *. by subst.
    + right. destruct (Hsa ma Ha) as [pa Hpa]. destruct (Hsi mi Hi) as [pi Hpi].
      exists (visualize pa ma), (visualize pi mi). repeat split; done.
Qed.

Lemma visualizers_stay_paired_witness :
  visualizers_paired default_visualizer_cfgs
    (_set_debug_vis_impl default_visualizer_cfgs false
       (_debug_vis_callback robot3 state3 enabled_vis).2).
Proof.
  apply (visualizers_stay_paired default_visualizer_cfgs).
  apply vis_set, vis_callback. unfold enabled_vis. apply vis_set, vis_fresh.
Defined.

(** ** Observation terms *)



Lemma select_body_valid d id :
  contact_ok d →
  (- Z.of_nat (num_bodies d) ≤ id < Z.of_nat (num_bodies d))%Z →
  ∃ col, select_body d id = Some col ∧
         Forall2 (λ row f, row !! row_of (num_bodies d) id = Some f) (net_forces_w d) col.
Proof.
  intros Hok Hid. unfold select_body.
  assert (Torch.norm_index (num_bodies d) id = Some (row_of (num_bodies d) id)) as ->.
  { unfold row_of. destruct (Z.leb_spec 0 id).
    - apply norm_index_nonneg. lia.
    - apply norm_index_negative. lia. }
  simpl.
  assert (row_of (num_bodies d) id < num_bodies d) as Hlt.
  { unfold row_of. destruct (Z.leb_spec 0 id); lia. }
  unfold contact_ok in Hok.
  induction Hok as [|row l Hrow _ (col & Hcol & Hall)].
  - exists []. split; [done|constructor].
  - destruct (lookup_lt_is_Some_2 row (row_of (num_bodies d) id)) as [f Hf]; [lia|].
    exists (f :: col). split; [|by constructor].
    apply mapM_Some_2. constructor; [done|]. by apply mapM_Some_1.
Qed.

(** X11.  [measure_contact_forces] reports the first two bodies of
    [body_ids] and nothing else: with fewer than two ids it raises
    [IndexError]; with two ids that address bodies (and any further ids,
    which are ignored) every environment gets the six numbers of the force
    on the first body followed by the force on the second. *)
Theorem measure_contact_forces_two_bodies :
  (∀ d body_ids, length body_ids < 2 → measure_contact_forces d body_ids = None) ∧
  (∀ d l r more,
     contact_ok d →
     (- Z.of_nat (num_bodies d) ≤ l < Z.of_nat (num_bodies d))%Z →
     (- Z.of_nat (num_bodies d) ≤ r < Z.of_nat (num_bodies d))%Z →
     ∃ out,
       measure_contact_forces d (l :: r :: more) = Some out ∧
       length out = length (net_forces_w d) ∧
       ∀ i row, net_forces_w d !! i = Some row →
         ∃ fl fr,
           row !! row_of (num_bodies d) l = Some fl ∧
           row !! row_of (num_bodies d) r = Some fr ∧
           out !! i = Some (vec3_list fl ++ vec3_list fr)).
Proof.
  split.
  - intros d [|l [|r more]] Hlen; simpl in Hlen; [done| |lia].
    unfold measure_contact_forces. simpl. by destruct (select_body d l).
  - intros d l r more Hok Hl Hr.
    destruct (select_body_valid d l Hok Hl) as (cl & Hcl & Hfl).
    destruct (select_body_valid d r Hok Hr) as (cr & Hcr & Hfr).
    unfold measure_contact_forces. simpl. rewrite Hcl. simpl. rewrite Hcr. simpl.
    eexists. split; [done|].
    pose proof (Forall2_length _ _ _ Hfl) as Hl1.
    pose proof (Forall2_length _ _ _ Hfr) as Hl2.
    split; [rewrite length_zip_with; lia|].
    intros i row Hrow.
    destruct (Forall2_lookup_l _ _ _ _ _ Hfl Hrow) as (fl & Hcli & Hfli).
    destruct (Forall2_lookup_l _ _ _ _ _ Hfr Hrow) as (fr & Hcri & Hfri).
    exists fl, fr. split; [done|]. split; [done|].
    rewrite lookup_zip_with, Hcli. simpl. by rewrite Hcri.
Qed.

Lemma measure_contact_forces_two_bodies_witness :
  measure_contact_forces contact3 [0%Z] = None ∧
  ∃ out,
    measure_contact_forces contact3 [0%Z; 1%Z; 2%Z] = Some out ∧
    length out = length (net_forces_w contact3) ∧
    ∀ i row, net_forces_w contact3 !! i = Some row →
      ∃ fl fr,
        row !! row_of (num_bodies contact3) 0 = Some fl ∧
        row !! row_of (num_bodies contact3) 1 = Some fr ∧
        out !! i = Some (vec3_list fl ++ vec3_list fr).
Proof.
  split.
  - apply (proj1 measure_contact_forces_two_bodies contact3 [0%Z]). simpl. lia.
  - apply (proj2 measure_contact_forces_two_bodies contact3 0%Z 1%Z [2%Z]).
    + repeat constructor.
    + simpl. lia.
    + simpl. lia.
Defined.

Lemma broadcast_to_Some k scale :
  length scale = k ∨ length scale = 1 →
  ∃ factors, broadcast_to k scale = Some factors ∧ length factors = k ∧
    ∀ c, c < k → ∃ s, factors !! c = Some s ∧ (scale !! c = Some s ∨ scale = [s]).
Proof.
  intros Hlen. unfold broadcast_to. case_bool_decide as Hk.
  - exists scale. split; [done|]. split; [done|]. intros c Hc.
    destruct (lookup_lt_is_Some_2 scale c) as [s Hs]; [lia|]. eauto.
  - destruct Hlen as [?|Hone]; [done|].
    destruct scale as [|s [|]]; simpl in Hone; try lia.
    exists (replicate k s). split; [done|]. split; [by rewrite length_replicate|].
    intros c Hc. exists s. split; [by apply lookup_replicate_2|by right].
Qed.

(** X12.  [generated_scaled_commands] scales the first three columns of
    the command and nothing else.  A scale whose length is neither 1 nor
    the number of columns scaled ([min 3 ncols]) is a broadcasting error;
    otherwise the result has the shape of the command, every entry of
    columns 0 to 2 is the entry times its factor (its own, or the single
    one), and every entry from column 3 on is the command's. *)
Theorem generated_scaled_commands_first_three :
  (∀ cmd scale,
     length scale ≠ min 3 (ncols cmd) → length scale ≠ 1 →
     generated_scaled_commands cmd scale = None) ∧
  (∀ cmd scale,
     tensor_ok cmd →
     length scale = min 3 (ncols cmd) ∨ length scale = 1 →
     ∃ out,
       generated_scaled_commands cmd scale = Some out ∧
       ncols out = ncols cmd ∧ tensor_ok out ∧
       length (rows out) = length (rows cmd) ∧
       ∀ i row, rows cmd !! i = Some row →
         ∃ row', rows out !! i = Some row' ∧
           (∀ c, 3 ≤ c → row' !! c = row !! c) ∧
           (∀ c x, c < 3 → row !! c = Some x →
              ∃ s, (scale !! c = Some s ∨ scale = [s]) ∧
                   row' !! c = Some (F32.mul x s))).
Proof.
  split.
  - intros cmd scale Hk Hone. unfold generated_scaled_commands, broadcast_to.
    rewrite bool_decide_false by done.
    destruct scale as [|s [|]]; simpl in *; done.
  - intros cmd scale Hok Hlen.
    destruct (broadcast_to_Some _ _ Hlen) as (factors & Hb & Hfl & Hf).
    unfold generated_scaled_commands. rewrite Hb.
    cbn [mbind option_bind].
    eexists. split; [reflexivity|]. cbn [ncols rows].
    assert (∀ row, length row = ncols cmd →
              length (zip_with F32.mul (take (3 `min` ncols cmd) row) factors)
              = 3 `min` ncols cmd) as Hzl.
    { intros row Hrow. rewrite length_zip_with, length_take, Hfl, Hrow. lia. }
    split; [done|]. split; [|split; [by rewrite length_fmap|]].
    + unfold tensor_ok in *. cbn [ncols rows]. apply Forall_fmap.
      eapply Forall_impl; [exact Hok|]. intros row Hrow.
      unfold compose. cbn beta in *.
      rewrite length_app, (Hzl row Hrow), length_drop, Hrow. lia.
    + intros i row Hrow. rewrite list_lookup_fmap, Hrow.
      cbn [fmap option_fmap option_map].
      eexists. split; [reflexivity|].
      assert (length row = ncols cmd) as Hr.
      { unfold tensor_ok in Hok. by eapply (Forall_lookup_1 _ _ _ _ Hok). }
      split.
      * intros c Hc. rewrite lookup_app_r by (rewrite (Hzl row Hr); lia).
        rewrite (Hzl row Hr), lookup_drop. f_equal. lia.
      * intros c x Hc Hx.
        assert (c < 3 `min` ncols cmd) as Hck.
        { apply lookup_lt_Some in Hx. lia. }
        destruct (Hf c Hck) as (s & Hs & Hscale).
        exists s. split; [done|].
        rewrite lookup_app_l by (rewrite (Hzl row Hr); lia).
        rewrite lookup_zip_with, lookup_take_lt, Hx by done.
        cbn [mbind option_bind]. rewrite Hs. done.
Qed.

Lemma generated_scaled_commands_first_three_witness :
  generated_scaled_commands (command_tensor state_C) [F32.one; F32.two; F32.one] = None ∧
  ∃ out,
    generated_scaled_commands (command_tensor state_C) [F32.two] = Some out ∧
    ncols out = 2 ∧ length (rows out) = 2.
Proof.
  split.
  - apply (proj1 generated_scaled_commands_first_three (command_tensor state_C)
             [F32.one; F32.two; F32.one]); simpl; lia.
  - destruct (proj2 generated_scaled_commands_first_three (command_tensor state_C)
                [F32.two]) as (out & Hout & Hc & _ & Hr & _).
    + repeat constructor.
    + right. reflexivity.
    + exists out. split; [exact Hout|]. split; [exact Hc|exact Hr].
Defined.


